(** * Voice-Health-Detection: inference core

    Shallow embedding of the backend's audio validation, feature
    extraction and ordering, classifier gateway and score derivation
    ([backend/app/services/audio_service.py],
    [backend/app/models/feature_extractor.py],
    [backend/app/models/prediction_model.py],
    [backend/app/services/prediction_service.py]). *)

From Stdlib Require Import List Bool Arith ZArith QArith Qround Qabs Lia Ascii String.
From Stdlib Require Lqa Lra Reals Qpower SpecFloat QMicromega.
From stdpp Require Import base gmap strings.
Import ListNotations.

(* ------------------------------------------------------------------ *)
(** ** Python helpers *)

(** [str(n)] for a natural number: decimal digits. *)
Fixpoint digits_go (fuel n : nat) (acc : string) : string :=
  match fuel with
  | O => acc
  | S f =>
      let acc' := String.String (ascii_of_nat (48 + n mod 10)) acc in
      if n <? 10 then acc' else digits_go f (n / 10) acc'
  end.

Definition py_str_nat (n : nat) : string := digits_go (S n) n EmptyString.

(** Python's [x < y] on floats, over rationals. *)
Definition Qlt_bool (x y : Q) : bool := negb (Qle_bool y x).

Lemma Qlt_bool_iff (x y : Q) : Qlt_bool x y = true <-> (x < y)%Q.
Proof.
  unfold Qlt_bool. rewrite negb_true_iff. split.
  - intros H. apply Qnot_le_lt. intros Hle. apply Qle_bool_iff in Hle. congruence.
  - intros H. destruct (Qle_bool y x) eqn:E; [|reflexivity].
    apply Qle_bool_iff in E. exfalso. now apply (Qlt_not_le x y).
Qed.

(** [range(a, b)] *)
Definition py_range (a b : nat) : list nat := seq a (b - a).

(* ------------------------------------------------------------------ *)
(** ** The feature ordering, [AudioService.features_to_array] *)

Module AudioServiceOrder.

(** The [feature_order] list built inside [features_to_array]. *)
Definition feature_order : list string :=
  map (fun i => String.append "mfcc_" (String.append (py_str_nat i) "_mean")) (py_range 1 14)
  ++ map (fun i => String.append "mfcc_" (String.append (py_str_nat i) "_std")) (py_range 1 14)
  ++ ["pitch_mean"; "pitch_std"; "pitch_min"; "pitch_max"]
  ++ ["jitter"; "shimmer"]
  ++ ["spectral_centroid_mean"; "spectral_centroid_std"]
  ++ ["zcr_mean"; "zcr_std"]
  ++ ["rms_mean"; "rms_std"]
  ++ ["hnr"].

End AudioServiceOrder.

(** ** The feature names, [FeatureExtractor._get_feature_names] *)

Module FeatureExtractorNames.

Definition _get_feature_names : list string :=
  let features := [] in
  let features := features ++ map (fun i => String.append "mfcc_" (String.append (py_str_nat i) "_mean")) (py_range 1 14) in
  let features := features ++ map (fun i => String.append "mfcc_" (String.append (py_str_nat i) "_std")) (py_range 1 14) in
  let features := features ++ ["pitch_mean"; "pitch_std"; "pitch_min"; "pitch_max"] in
  let features := features ++ ["jitter"; "shimmer"] in
  let features := features ++ ["spectral_centroid_mean"; "spectral_centroid_std"] in
  let features := features ++ ["zcr_mean"; "zcr_std"] in
  let features := features ++ ["rms_mean"; "rms_std"] in
  let features := features ++ ["hnr"] in
  features.

Definition get_feature_count : nat := length _get_feature_names.

End FeatureExtractorNames.

(** The ordering the spec documents (section 4.3), written from its words:
    13 MFCC means, 13 MFCC stds, pitch mean/std/min/max, jitter, shimmer,
    spectral centroid mean/std, ZCR mean/std, RMS mean/std, HNR. *)
Definition documented_order : list string :=
  ["mfcc_1_mean"; "mfcc_2_mean"; "mfcc_3_mean"; "mfcc_4_mean"; "mfcc_5_mean";
   "mfcc_6_mean"; "mfcc_7_mean"; "mfcc_8_mean"; "mfcc_9_mean"; "mfcc_10_mean";
   "mfcc_11_mean"; "mfcc_12_mean"; "mfcc_13_mean";
   "mfcc_1_std"; "mfcc_2_std"; "mfcc_3_std"; "mfcc_4_std"; "mfcc_5_std";
   "mfcc_6_std"; "mfcc_7_std"; "mfcc_8_std"; "mfcc_9_std"; "mfcc_10_std";
   "mfcc_11_std"; "mfcc_12_std"; "mfcc_13_std";
   "pitch_mean"; "pitch_std"; "pitch_min"; "pitch_max";
   "jitter"; "shimmer";
   "spectral_centroid_mean"; "spectral_centroid_std";
   "zcr_mean"; "zcr_std"; "rms_mean"; "rms_std"; "hnr"].

Example feature_order_head :
  firstn 2 AudioServiceOrder.feature_order = ["mfcc_1_mean"; "mfcc_2_mean"].
Proof. reflexivity. Qed.

(* ------------------------------------------------------------------ *)
(** ** Feature extraction, [AudioService.extract_features]

    The numerical routines of librosa and numpy are outside the
    repository; their results on the preprocessed buffer are the fields
    of [Analysis], and the scalar arithmetic is an abstract number type
    [F] with the operations numpy uses.  Everything the repository code
    does with them (the loops, the voiced-frame filter, the defaults, the
    dictionary keys) is written out. *)

(** The float operations numpy applies; [fltb x y] is Python's [x < y],
    [f_minus_ten] and [f_eps] the literals [-10] and [1e-10] of the HNR
    estimate. *)
Class NpOps (F : Type) := {
  fzero : F;
  fadd : F -> F -> F; fsub : F -> F -> F; fmul : F -> F -> F; fdiv : F -> F -> F;
  fabs : F -> F; fsqrt : F -> F; flog10 : F -> F;
  of_nat : nat -> F;
  fltb : F -> F -> bool;
  f_minus_ten : F; f_eps : F
}.

Module Extraction.
Section Extract.

Context {F : Type} `{NpOps F}.

(** [np.mean], [np.std] (population), [np.min], [np.max], [np.diff],
    [np.abs], [np.argmax] (first maximal index). *)
Definition np_sum (xs : list F) : F := fold_left fadd xs fzero.
Definition np_mean (xs : list F) : F := fdiv (np_sum xs) (of_nat (length xs)).
Definition np_std (xs : list F) : F :=
  let m := np_mean xs in
  fsqrt (np_mean (map (fun x => fmul (fsub x m) (fsub x m)) xs)).
Definition np_min (xs : list F) : F :=
  match xs with
  | [] => fzero
  | x :: r => fold_left (fun acc y => if fltb y acc then y else acc) r x
  end.
Definition np_max (xs : list F) : F :=
  match xs with
  | [] => fzero
  | x :: r => fold_left (fun acc y => if fltb acc y then y else acc) r x
  end.
Fixpoint np_diff (xs : list F) : list F :=
  match xs with
  | x :: ((y :: _) as r) => fsub y x :: np_diff r
  | _ => []
  end.
Definition np_abs (xs : list F) : list F := map fabs xs.

Fixpoint argmax_go (xs : list F) (i best_i : nat) (best : F) : nat :=
  match xs with
  | [] => best_i
  | x :: r => if fltb best x then argmax_go r (S i) i x else argmax_go r (S i) best_i best
  end.
Definition np_argmax (xs : list F) : nat :=
  match xs with [] => 0 | x :: r => argmax_go r 1 0 x end.

(** What librosa computes on the preprocessed buffer. *)
Record Analysis := mkAnalysis {
  mfccs : nat -> list F;                 (** row [i] of [librosa.feature.mfcc(n_mfcc=13)] *)
  piptrack : list (list F * list F);      (** per frame [t]: ([pitches[:, t]], [magnitudes[:, t]]) *)
  spectral_centroids : list F;
  zcr : list F;
  rms : list F;
  spectral_flatness : list F
}.

(** The voiced-frame loop of [extract_features]. *)
Definition frame_pitch (frame : list F * list F) : F :=
  let '(pitches, magnitudes) := frame in
  nth (np_argmax magnitudes) pitches fzero.

Definition pitch_values (a : Analysis) : list F :=
  fold_left (fun acc frame =>
               let pitch := frame_pitch frame in
               if fltb fzero pitch then acc ++ [pitch] else acc)
            (piptrack a) [].

Definition mfcc_key (i : nat) (suffix : string) : string :=
  String.append "mfcc_" (String.append (py_str_nat i) suffix).

Definition extract_features (a : Analysis) : gmap string F :=
  let features : gmap string F := ∅ in
  let features := fold_left (fun (m : gmap string F) i =>
                    let m := <[mfcc_key (i + 1) "_mean" := np_mean (mfccs a i)]> m in
                    <[mfcc_key (i + 1) "_std" := np_std (mfccs a i)]> m)
                    (py_range 0 13) features in
  let pv := pitch_values a in
  let features :=
    match pv with
    | _ :: _ =>
        <["pitch_max" := np_max pv]> (<["pitch_min" := np_min pv]>
          (<["pitch_std" := np_std pv]> (<["pitch_mean" := np_mean pv]> features)))
    | [] =>
        <["pitch_max" := fzero]> (<["pitch_min" := fzero]>
          (<["pitch_std" := fzero]> (<["pitch_mean" := fzero]> features)))
    end in
  let features :=
    if 1 <? length pv then <["jitter" := np_mean (np_abs (np_diff pv))]> features
    else <["jitter" := fzero]> features in
  let sc := spectral_centroids a in
  let features := <["spectral_centroid_std" := np_std sc]>
                    (<["spectral_centroid_mean" := np_mean sc]> features) in
  let features := <["zcr_std" := np_std (zcr a)]> (<["zcr_mean" := np_mean (zcr a)]> features) in
  let r := rms a in
  let features := <["rms_std" := np_std r]> (<["rms_mean" := np_mean r]> features) in
  let features :=
    if 1 <? length r then <["shimmer" := np_mean (np_abs (np_diff r))]> features
    else <["shimmer" := fzero]> features in
  let hnr_estimate := fmul f_minus_ten (flog10 (fadd (np_mean (spectral_flatness a)) f_eps)) in
  <["hnr" := hnr_estimate]> features.

(** [features_to_array]: the values in [feature_order], missing keys as
    [0.0]; the [reshape(1, -1)] row is the list itself. *)
Definition features_to_array (features : gmap string F) : list F :=
  map (fun key => default fzero (features !! key)) AudioServiceOrder.feature_order.

(** [FeatureExtractor.format_features_for_display]: the nested dictionary
    of groups, one record per group; the keys [mean], [std], [min], [max]
    of the [pitch] group carry a [pitch_] prefix here. *)
Record PitchGroup := mkPitchGroup { pitch_mean : F; pitch_std : F; pitch_min : F; pitch_max : F }.
Record VoiceQualityGroup := mkVoiceQualityGroup { jitter : F; shimmer : F; hnr : F }.
Record SpectralGroup := mkSpectralGroup { centroid_mean : F; centroid_std : F }.
Record EnergyGroup := mkEnergyGroup { rms_mean : F; rms_std : F }.
Record TemporalGroup := mkTemporalGroup { zcr_mean : F; zcr_std : F }.
Record FormattedFeatures := mkFormattedFeatures {
  pitch : PitchGroup;
  voice_quality : VoiceQualityGroup;
  spectral : SpectralGroup;
  energy : EnergyGroup;
  temporal : TemporalGroup
}.

Definition format_features_for_display (features : gmap string F) : FormattedFeatures :=
  let get key := default fzero (features !! key) in
  mkFormattedFeatures
    (mkPitchGroup (get "pitch_mean") (get "pitch_std") (get "pitch_min") (get "pitch_max"))
    (mkVoiceQualityGroup (get "jitter") (get "shimmer") (get "hnr"))
    (mkSpectralGroup (get "spectral_centroid_mean") (get "spectral_centroid_std"))
    (mkEnergyGroup (get "rms_mean") (get "rms_std"))
    (mkTemporalGroup (get "zcr_mean") (get "zcr_std")).

(** The vector the spec documents for an analysis: the named statistics
    in the documented order (spec section 4.3). *)
Definition documented_vector (a : Analysis) : list F :=
  let pv := pitch_values a in
  let voiced := match pv with [] => false | _ => true end in
  map (fun i => np_mean (mfccs a i)) (seq 0 13)
  ++ map (fun i => np_std (mfccs a i)) (seq 0 13)
  ++ [if voiced then np_mean pv else fzero; if voiced then np_std pv else fzero;
      if voiced then np_min pv else fzero; if voiced then np_max pv else fzero;
      if 1 <? length pv then np_mean (np_abs (np_diff pv)) else fzero;
      if 1 <? length (rms a) then np_mean (np_abs (np_diff (rms a))) else fzero;
      np_mean (spectral_centroids a); np_std (spectral_centroids a);
      np_mean (zcr a); np_std (zcr a); np_mean (rms a); np_std (rms a);
      fmul f_minus_ten (flog10 (fadd (np_mean (spectral_flatness a)) f_eps))].

Lemma features_to_array_extract (a : Analysis) :
  features_to_array (extract_features a) = documented_vector a.
Proof.
  unfold features_to_array, extract_features, documented_vector.
  destruct (pitch_values a) as [|p [|q ps]]; destruct (1 <? length (rms a));
    vm_compute; reflexivity.
Qed.

End Extract.
End Extraction.

(* ------------------------------------------------------------------ *)
(** ** Score derivation: [calculate_risk_level] on rationals, [map_to_status]

    Here a probability is read as the rational number it denotes and the
    thresholds 0.3 and 0.7 as the rationals 3/10 and 7/10.  The code's own
    float comparisons and float arithmetic are modelled in [Scores64]. *)

Module Scores.
Import Lqa.
Local Open Scope Q_scope.

(** Python's [int(x)] on a float: truncation toward zero. *)
Definition py_int (q : Q) : Z := Z.quot (Qnum q) (Zpos (Qden q)).

Definition calculate_risk_level (probability : Q) : string :=
  if Qlt_bool probability (3 # 10) then "low"
  else if Qlt_bool probability (7 # 10) then "medium"
  else "high".

Definition status_mapping : gmap string string :=
  <["high" := "alert"]> (<["medium" := "warning"]> (<["low" := "normal"]> ∅)).

Definition map_to_status (risk_level : string) : string :=
  default "normal" (status_mapping !! risk_level).

(** Python's [round(x)]: nearest integer, ties to even. *)
Definition py_round (q : Q) : Z :=
  let fl := Qfloor q in
  let frac := q - inject_Z fl in
  if Qlt_bool frac (1 # 2) then fl
  else if Qlt_bool (1 # 2) frac then (fl + 1)%Z
  else if Z.even fl then fl else (fl + 1)%Z.

Example status_medium : map_to_status (calculate_risk_level (1 # 2)) = "warning".
Proof. reflexivity. Qed.

(** For a non-negative value, [int()] is [Qfloor]. *)
Lemma py_int_nonneg (q : Q) : 0 <= q -> py_int q = Qfloor q.
Proof.
  destruct q as [n d]; unfold py_int, Qfloor, Qle; simpl; intros Hq.
  apply Z.quot_div_nonneg; lia.
Qed.

Lemma Qfloor_le_Z (q : Q) (z : Z) : q <= inject_Z z -> (Qfloor q <= z)%Z.
Proof. intros Hq. rewrite <- (Qfloor_Z z). now apply Qfloor_resp_le. Qed.

Lemma Z_le_Qfloor (q : Q) (z : Z) : inject_Z z <= q -> (z <= Qfloor q)%Z.
Proof. intros Hq. rewrite <- (Qfloor_Z z) at 1. now apply Qfloor_resp_le. Qed.

End Scores.

(* ------------------------------------------------------------------ *)
(** ** Python floats: IEEE 754 binary64

    The probability handed to the score functions is a Python float, and
    their arithmetic ([1 - p], [abs(p - 0.5)], [* 2], [* 100]) is binary64
    arithmetic, each operation rounded to nearest, ties to even.  Floats are
    the Standard Library's [spec_float] with its operations [SFsub],
    [SFmul], [SFabs], [SFltb] at precision 53 and [emax] 1024.  [val] reads a
    finite float as the rational it denotes, [round] is rounding of a
    rational to binary64, and the lemmas [fsub_spec], [fmul_spec],
    [fabs_spec], [fltb_spec], [float_int_spec] state that each operation
    returns the rounded exact result. *)

Module Float64.
Import Qpower SpecFloat QMicromega.
Local Open Scope Q_scope.

Definition prec : Z := 53.
Definition emax : Z := 1024.

Definition rne (q : Q) : Z :=
  let fl := Qfloor q in
  let frac := q - inject_Z fl in
  if Qlt_bool frac (1 # 2) then fl
  else if Qlt_bool (1 # 2) frac then (fl + 1)%Z
  else if Z.even fl then fl else (fl + 1)%Z.

(** powers of two *)
Lemma pw_pos (e : Z) : 0 < 2 ^ e.
Proof. apply Qpower_0_lt. reflexivity. Qed.
Lemma pw_nz (e : Z) : ~ 2 ^ e == 0.
Proof. pose proof (pw_pos e). intros H'. rewrite H' in H. discriminate. Qed.
Lemma pw_add (a b : Z) : 2 ^ (a + b) == 2 ^ a * 2 ^ b.
Proof. apply Qpower_plus. discriminate. Qed.
Lemma pw_lt (a b : Z) : (a < b)%Z -> 2 ^ a < 2 ^ b.
Proof. intros H. apply Qpower_lt_compat_l; [exact H | reflexivity]. Qed.
Lemma pw_le (a b : Z) : (a <= b)%Z -> 2 ^ a <= 2 ^ b.
Proof. intros H. apply Qpower_le_compat_l; [exact H | discriminate]. Qed.
Lemma pw_lt_inv (a b : Z) : 2 ^ a < 2 ^ b -> (a < b)%Z.
Proof. intros H. apply (Qpower_lt_compat_l_inv 2); [exact H | reflexivity]. Qed.
Lemma pw_Z (n : Z) : (0 <= n)%Z -> 2 ^ n == inject_Z (2 ^ n).
Proof. intros H. rewrite Zpower_Qpower by exact H. reflexivity. Qed.
Lemma pw_sub (a b : Z) : 2 ^ (a - b) == 2 ^ a / 2 ^ b.
Proof.
  replace a with ((a - b) + b)%Z at 2 by lia. rewrite pw_add.
  field. apply pw_nz.
Qed.

(** round half to even on rationals *)
Lemma floor_frac (q : Q) : 0 <= q - inject_Z (Qfloor q) < 1.
Proof.
  pose proof (Qfloor_le q). pose proof (Qlt_floor q).
  rewrite inject_Z_plus in H0. unfold inject_Z at 2 in H0. Lqa.lra.
Qed.

Lemma rne_char (q : Q) :
  let F := Qfloor q in let fr := q - inject_Z F in
  (fr < 1 # 2 -> rne q = F) /\ (1 # 2 < fr -> rne q = (F + 1)%Z) /\
  (fr == 1 # 2 -> rne q = if Z.even F then F else (F + 1)%Z).
Proof.
  intros F fr. unfold rne. fold F. fold fr.
  pose proof (Qlt_bool_iff fr (1 # 2)) as H1. pose proof (Qlt_bool_iff (1 # 2) fr) as H2.
  split; [|split].
  - intros H. apply H1 in H. now rewrite H.
  - intros H. assert (Hn : Qlt_bool fr (1 # 2) = false).
    { destruct (Qlt_bool fr (1 # 2)) eqn:E; [|reflexivity]. apply Qlt_bool_iff in E. Lqa.lra. }
    rewrite Hn. apply H2 in H. now rewrite H.
  - intros H. assert (Hn : Qlt_bool fr (1 # 2) = false).
    { destruct (Qlt_bool fr (1 # 2)) eqn:E; [|reflexivity]. apply Qlt_bool_iff in E. Lqa.lra. }
    assert (Hn2 : Qlt_bool (1 # 2) fr = false).
    { destruct (Qlt_bool (1 # 2) fr) eqn:E; [|reflexivity]. apply Qlt_bool_iff in E. Lqa.lra. }
    now rewrite Hn, Hn2.
Qed.

Lemma rne_cases (q : Q) :
  (rne q = Qfloor q /\ q - inject_Z (Qfloor q) <= 1 # 2) \/
  (rne q = (Qfloor q + 1)%Z /\ 1 # 2 <= q - inject_Z (Qfloor q)).
Proof.
  destruct (rne_char q) as (A & B & C).
  destruct (Qlt_le_dec (q - inject_Z (Qfloor q)) (1 # 2)) as [H|H].
  - left. split; [now apply A | Lqa.lra].
  - destruct (Qlt_le_dec (1 # 2) (q - inject_Z (Qfloor q))) as [H'|H'].
    + right. split; [now apply B | Lqa.lra].
    + assert (E : q - inject_Z (Qfloor q) == 1 # 2) by Lqa.lra.
      rewrite (C E). destruct (Z.even (Qfloor q)); [left|right]; split; auto; Lqa.lra.
Qed.

Lemma rne_proper (q q' : Q) : q == q' -> rne q = rne q'.
Proof.
  intros Hq. pose proof (Qfloor_comp q q' Hq) as HF.
  destruct (rne_char q) as (A & B & C). destruct (rne_char q') as (A' & B' & C').
  rewrite <- HF in A', B', C'.
  destruct (Qlt_le_dec (q - inject_Z (Qfloor q)) (1 # 2)) as [H|H].
  - rewrite (A H), A'; [reflexivity | Lqa.lra].
  - destruct (Qlt_le_dec (1 # 2) (q - inject_Z (Qfloor q))) as [H'|H'].
    + rewrite (B H'), B'; [reflexivity | Lqa.lra].
    + rewrite C, C'; [reflexivity | Lqa.lra | Lqa.lra].
Qed.

Lemma rne_Z (k : Z) : rne (inject_Z k) = k.
Proof.
  destruct (rne_char (inject_Z k)) as (A & _ & _). rewrite A; rewrite Qfloor_Z; [reflexivity|].
  unfold Qminus. rewrite Qplus_opp_r. reflexivity.
Qed.

Lemma rne_mono (q q' : Q) : q <= q' -> (rne q <= rne q')%Z.
Proof.
  intros Hq. pose proof (Qfloor_resp_le q q' Hq) as HF.
  destruct (Z.eq_dec (Qfloor q) (Qfloor q')) as [E|E].
  - destruct (rne_cases q) as [[R1 F1]|[R1 F1]]; destruct (rne_cases q') as [[R2 F2]|[R2 F2]];
      rewrite R1, R2; try lia.
    rewrite E in F1.
    assert (Ht : q' - inject_Z (Qfloor q') == 1 # 2) by Lqa.lra.
    assert (Ht' : q - inject_Z (Qfloor q) == 1 # 2) by (rewrite E; Lqa.lra).
    destruct (rne_char q) as (_ & _ & C). destruct (rne_char q') as (_ & _ & C').
    specialize (C Ht'). specialize (C' Ht). rewrite R1 in C. rewrite R2 in C'.
    rewrite E in C. destruct (Z.even (Qfloor q')); lia.
  - destruct (rne_cases q) as [[R1 _]|[R1 _]]; destruct (rne_cases q') as [[R2 _]|[R2 _]];
      rewrite R1, R2; lia.
Qed.

Lemma rne_err (q : Q) : Qabs (inject_Z (rne q) - q) <= 1 # 2.
Proof.
  pose proof (floor_frac q) as Hf.
  apply Qabs_Qle_condition.
  destruct (rne_cases q) as [[R1 F1]|[R1 F1]]; rewrite R1.
  - split; Lqa.lra.
  - rewrite inject_Z_plus. change (inject_Z 1) with 1. split; Lqa.lra.
Qed.

(** [rne] of [m / P] in integer terms *)
Lemma rne_divZ (m : Z) (P : positive) :
  rne (m # P) =
    let q := (m / Zpos P)%Z in let r := (m mod Zpos P)%Z in
    if (2 * r <? Zpos P)%Z then q else if (Zpos P <? 2 * r)%Z then (q + 1)%Z
    else if Z.even q then q else (q + 1)%Z.
Proof.
  cbv zeta.
  assert (HF : Qfloor (m # P) = (m / Zpos P)%Z) by reflexivity.
  pose proof (Z.div_mod m (Zpos P) ltac:(lia)) as Hdm.
  pose proof (Z.mod_pos_bound m (Zpos P) ltac:(lia)) as Hb.
  set (q := (m / Zpos P)%Z) in *. set (r := (m mod Zpos P)%Z) in *.
  assert (Hfr : (m # P) - inject_Z q == r # P).
  { unfold Qeq, Qminus, Qplus, Qopp; simpl. rewrite Pos.mul_1_r. nia. }
  destruct (rne_char (m # P)) as (A & B & C). rewrite HF in A, B, C.
  destruct (Z.ltb_spec (2 * r) (Zpos P)) as [H1|H1].
  - apply A. rewrite Hfr. unfold Qlt; simpl. lia.
  - destruct (Z.ltb_spec (Zpos P) (2 * r)) as [H2|H2].
    + apply B. rewrite Hfr. unfold Qlt; simpl. lia.
    + apply C. rewrite Hfr. unfold Qeq; simpl. lia.
Qed.

(** binary digits and magnitude *)
Lemma digits2_pos_size (m : positive) : digits2_pos m = Pos.size m.
Proof. induction m; simpl; congruence. Qed.

Lemma size_bounds (m : positive) :
  (2 ^ (Zpos (Pos.size m) - 1) <= Zpos m < 2 ^ Zpos (Pos.size m))%Z.
Proof.
  pose proof (Pos.size_le m) as H1. pose proof (Pos.size_gt m) as H2.
  apply Pos2Z.pos_le_pos in H1. apply Pos2Z.pos_lt_pos in H2.
  rewrite Pos2Z.inj_pow in H1, H2. change (Z.pos m~0) with (2 * Z.pos m)%Z in H1.
  assert (E : (2 ^ Zpos (Pos.size m) = 2 * 2 ^ (Zpos (Pos.size m) - 1))%Z).
  { rewrite <- Z.pow_succ_r by lia. f_equal. lia. }
  lia.
Qed.

Lemma pair_bounds (m : positive) (e : Z) :
  let K := (Zpos (digits2_pos m) + e)%Z in
  2 ^ (K - 1) <= inject_Z (Zpos m) * 2 ^ e < 2 ^ K.
Proof.
  intros K. subst K. rewrite digits2_pos_size.
  pose proof (size_bounds m) as [H1 H2].
  replace (Zpos (Pos.size m) + e - 1)%Z with ((Zpos (Pos.size m) - 1) + e)%Z by lia.
  rewrite !pw_add, (pw_Z (Zpos (Pos.size m))), (pw_Z (Zpos (Pos.size m) - 1)) by lia.
  pose proof (pw_pos e). split.
  - apply Qmult_le_compat_r; [now rewrite <- Zle_Qle | Lqa.lra].
  - apply Qmult_lt_compat_r; [exact H | now rewrite <- Zlt_Qlt].
Qed.

Definition magQ (x : Q) : Z :=
  let k0 := (Z.log2 (Qnum x) - Z.log2 (Zpos (Qden x)))%Z in
  if Qle_bool (2 ^ k0) x then (k0 + 1)%Z else k0.

Lemma magQ_spec (x : Q) : 0 < x -> 2 ^ (magQ x - 1) <= x < 2 ^ magQ x.
Proof.
  destruct x as [n d]. intros Hx. unfold Qlt in Hx. simpl in Hx.
  assert (Hn : (0 < n)%Z) by lia.
  pose proof (Z.log2_spec n Hn) as [Ln1 Ln2].
  pose proof (Z.log2_spec (Zpos d) ltac:(lia)) as [Ld1 Ld2].
  pose proof (Z.log2_nonneg n). pose proof (Z.log2_nonneg (Zpos d)).
  unfold magQ; simpl Qnum; simpl Qden.
  set (ln := Z.log2 n) in *. set (ld := Z.log2 (Zpos d)) in *.
  assert (Ex : n # d == inject_Z n / inject_Z (Zpos d)).
  { unfold Qeq, Qdiv, Qmult, Qinv; simpl. lia. }
  assert (Hd : 0 < inject_Z (Zpos d)) by (unfold Qlt; simpl; lia).
  assert (Lo : 2 ^ (ln - ld - 1) <= n # d).
  { rewrite Ex. apply Qle_shift_div_l; [exact Hd|].
    apply Qle_trans with (2 ^ (ln - ld - 1) * 2 ^ (ld + 1)).
    - apply Qmult_le_l; [apply pw_pos|]. rewrite pw_Z by lia.
      rewrite <- Zle_Qle. unfold Z.succ in Ld2. lia.
    - rewrite <- pw_add. replace (ln - ld - 1 + (ld + 1))%Z with ln by lia.
      rewrite pw_Z by lia. rewrite <- Zle_Qle. lia. }
  assert (Hi : n # d < 2 ^ (ln - ld + 1)).
  { rewrite Ex. apply Qlt_shift_div_r; [exact Hd|].
    apply Qlt_le_trans with (2 ^ (ln + 1)).
    - rewrite pw_Z by lia. rewrite <- Zlt_Qlt. unfold Z.succ in Ln2. lia.
    - replace (ln + 1)%Z with ((ln - ld + 1) + ld)%Z at 1 by lia. rewrite pw_add.
      apply Qmult_le_l; [apply pw_pos|]. rewrite pw_Z by lia. rewrite <- Zle_Qle. lia. }
  pose proof (Qle_bool_iff (2 ^ (ln - ld)) (n # d)) as Hb.
  destruct (Qle_bool (2 ^ (ln - ld)) (n # d)).
  - replace (ln - ld + 1 - 1)%Z with (ln - ld)%Z by lia. split; [now apply Hb | exact Hi].
  - split; [exact Lo|]. apply Qnot_le_lt. intros Hc. apply Hb in Hc. discriminate.
Qed.

Lemma magQ_unique (x : Q) (k : Z) : 2 ^ (k - 1) <= x < 2 ^ k -> magQ x = k.
Proof.
  intros [H1 H2]. assert (Hx : 0 < x) by (pose proof (pw_pos (k - 1)); Lqa.lra).
  destruct (magQ_spec x Hx) as [M1 M2].
  assert (A : (k - 1 < magQ x)%Z) by (apply pw_lt_inv; Lqa.lra).
  assert (B : (magQ x - 1 < k)%Z) by (apply pw_lt_inv; Lqa.lra).
  lia.
Qed.

Lemma magQ_pair (m : positive) (e : Z) :
  magQ (inject_Z (Zpos m) * 2 ^ e) = (Zpos (digits2_pos m) + e)%Z.
Proof. apply magQ_unique, pair_bounds. Qed.

Lemma magQ_proper (x y : Q) : 0 < x -> x == y -> magQ x = magQ y.
Proof.
  intros Hx E. destruct (magQ_spec x Hx) as [M1 M2].
  symmetry. apply magQ_unique. rewrite <- E. split; assumption.
Qed.

(** rounding at a fixed exponent *)
Definition R_at (E : Z) (x : Q) : Q := inject_Z (rne (x / 2 ^ E)) * 2 ^ E.

Lemma R_at_proper (E : Z) (x y : Q) : x == y -> R_at E x == R_at E y.
Proof. intros H. unfold R_at. rewrite (rne_proper (x / 2 ^ E) (y / 2 ^ E)); [reflexivity|]. now rewrite H. Qed.

Lemma R_at_mono (E : Z) (x y : Q) : x <= y -> R_at E x <= R_at E y.
Proof.
  intros H. unfold R_at. pose proof (pw_pos E).
  apply Qmult_le_compat_r; [|Lqa.lra]. rewrite <- Zle_Qle. apply rne_mono.
  apply Qmult_le_compat_r; [exact H|]. apply Qlt_le_weak, Qinv_lt_0_compat, pw_pos.
Qed.

Lemma R_at_fix (E k : Z) : R_at E (inject_Z k * 2 ^ E) == inject_Z k * 2 ^ E.
Proof.
  unfold R_at. rewrite (rne_proper _ (inject_Z k)); [rewrite rne_Z; reflexivity|].
  field. apply pw_nz.
Qed.

Lemma R_at_zero (E : Z) (x : Q) : x == 0 -> R_at E x == 0.
Proof.
  intros H. rewrite (R_at_proper E x (inject_Z 0 * 2 ^ E)); [rewrite R_at_fix; ring|].
  rewrite H. ring.
Qed.

Lemma R_at_nonneg (E : Z) (x : Q) : 0 <= x -> 0 <= R_at E x.
Proof.
  intros H. pose proof (R_at_mono E 0 x H) as M.
  rewrite (R_at_zero E 0) in M by reflexivity. exact M.
Qed.

Lemma R_at_err (E : Z) (x : Q) : Qabs (R_at E x - x) <= (1 # 2) * 2 ^ E.
Proof.
  unfold R_at. pose proof (pw_pos E) as HE.
  assert (Eq : inject_Z (rne (x / 2 ^ E)) * 2 ^ E - x ==
               (inject_Z (rne (x / 2 ^ E)) - x / 2 ^ E) * 2 ^ E) by (field; apply pw_nz).
  rewrite Eq, Qabs_Qmult, (Qabs_pos (2 ^ E)) by Lqa.lra.
  apply Qmult_le_compat_r; [apply rne_err | Lqa.lra].
Qed.

(** rounding of a positive rational to binary64, overflow aside *)
Definition fexp64 (k : Z) : Z := fexp prec emax k.

Lemma fexp64_eq (k : Z) : fexp64 k = Z.max (k - 53) (-1074).
Proof. reflexivity. Qed.

Definition R (x : Q) : Q := R_at (fexp64 (magQ x)) x.

Lemma R_proper (x y : Q) : 0 <= x -> x == y -> R x == R y.
Proof.
  intros Hx E. unfold R. destruct (Qle_lt_or_eq 0 x Hx) as [Hp|Hz].
  - rewrite (magQ_proper x y Hp E). now apply R_at_proper.
  - rewrite !R_at_zero; [reflexivity | rewrite <- E; symmetry; exact Hz | symmetry; exact Hz].
Qed.

Lemma R_nonneg (x : Q) : 0 <= x -> 0 <= R x.
Proof. apply R_at_nonneg. Qed.

Lemma R_mono_pos (x y : Q) : 0 < x -> x <= y -> R x <= R y.
Proof.
  intros Hx Hxy. assert (Hy : 0 < y) by Lqa.lra.
  destruct (magQ_spec x Hx) as [X1 X2]. destruct (magQ_spec y Hy) as [Y1 Y2].
  set (Kx := magQ x) in *. set (Ky := magQ y) in *.
  assert (HK : (Kx <= Ky)%Z).
  { assert (Kx - 1 < Ky)%Z by (apply pw_lt_inv; Lqa.lra). lia. }
  unfold R. fold Kx Ky. rewrite !fexp64_eq.
  destruct (Z.eq_dec Kx Ky) as [E|NE].
  { rewrite E. now apply R_at_mono. }
  destruct (Z_le_gt_dec (Ky - 53) (-1074)) as [Hs|Hs].
  { replace (Z.max (Kx - 53) (-1074)) with (-1074)%Z by lia.
    replace (Z.max (Ky - 53) (-1074)) with (-1074)%Z by lia. now apply R_at_mono. }
  set (Ex := Z.max (Kx - 53) (-1074)). set (Ey := Z.max (Ky - 53) (-1074)).
  assert (Hb : 2 ^ (Ky - 1) == inject_Z (2 ^ (Ky - 1 - Ex)) * 2 ^ Ex).
  { rewrite <- pw_Z by lia. rewrite <- pw_add. now replace (Ky - 1 - Ex + Ex)%Z with (Ky - 1)%Z by lia. }
  assert (Hb' : 2 ^ (Ky - 1) == inject_Z (2 ^ (Ky - 1 - Ey)) * 2 ^ Ey).
  { rewrite <- pw_Z by lia. rewrite <- pw_add. now replace (Ky - 1 - Ey + Ey)%Z with (Ky - 1)%Z by lia. }
  assert (Hxb : x <= 2 ^ (Ky - 1)).
  { apply Qle_trans with (2 ^ Kx); [Lqa.lra | apply pw_le; lia]. }
  apply Qle_trans with (2 ^ (Ky - 1)).
  - apply Qle_trans with (R_at Ex (2 ^ (Ky - 1))); [now apply R_at_mono|].
    rewrite (R_at_proper Ex _ _ Hb), R_at_fix, <- Hb. apply Qle_refl.
  - apply Qle_trans with (R_at Ey (2 ^ (Ky - 1))).
    + rewrite (R_at_proper Ey _ _ Hb'), R_at_fix, <- Hb'. apply Qle_refl.
    + now apply R_at_mono.
Qed.

Lemma R_mono (x y : Q) : 0 <= x -> x <= y -> R x <= R y.
Proof.
  intros Hx Hxy. destruct (Qle_lt_or_eq 0 x Hx) as [Hp|Hz].
  - now apply R_mono_pos.
  - unfold R at 1. rewrite R_at_zero by (symmetry; exact Hz). apply R_nonneg. Lqa.lra.
Qed.

Lemma R_fix (m : positive) (e : Z) :
  fexp64 (Zpos (digits2_pos m) + e) = e ->
  R (inject_Z (Zpos m) * 2 ^ e) == inject_Z (Zpos m) * 2 ^ e.
Proof. intros H. unfold R. rewrite magQ_pair, H. apply R_at_fix. Qed.

Lemma R_err (x : Q) (k : Z) :
  0 <= x < 2 ^ k -> (-1074 <= k - 53)%Z -> Qabs (R x - x) <= 2 ^ (k - 54).
Proof.
  intros [H0 H1] Hk. destruct (Qle_lt_or_eq 0 x H0) as [Hp|Hz].
  - destruct (magQ_spec x Hp) as [M1 M2].
    assert (HM : (magQ x <= k)%Z) by (assert (magQ x - 1 < k)%Z by (apply pw_lt_inv; Lqa.lra); lia).
    unfold R. eapply Qle_trans; [apply R_at_err|].
    rewrite fexp64_eq.
    assert (Hle : 2 ^ Z.max (magQ x - 53) (-1074) <= 2 ^ (k - 53)) by (apply pw_le; lia).
    replace (k - 53)%Z with (k - 54 + 1)%Z in Hle by lia. rewrite pw_add in Hle.
    change (2 ^ 1) with 2 in Hle. Lqa.lra.
  - unfold R. rewrite R_at_zero by (symmetry; exact Hz).
    rewrite <- Hz. simpl. apply Qlt_le_weak, pw_pos.
Qed.

(** signed rounding *)
Definition round (x : Q) : Q := if Qle_bool 0 x then R x else - R (- x).

Lemma round_pos (x : Q) : 0 <= x -> round x = R x.
Proof. intros H. unfold round. apply Qle_bool_iff in H. now rewrite H. Qed.

Lemma round_neg (x : Q) : x < 0 -> round x = - R (- x).
Proof.
  intros H. unfold round. destruct (Qle_bool 0 x) eqn:E; [|reflexivity].
  apply Qle_bool_iff in E. Lqa.lra.
Qed.

Lemma round_proper (x y : Q) : x == y -> round x == round y.
Proof.
  intros E. destruct (Qlt_le_dec x 0) as [N|P].
  - rewrite (round_neg x N), (round_neg y) by Lqa.lra.
    rewrite (R_proper (- x) (- y)); [reflexivity | Lqa.lra | now rewrite E].
  - rewrite (round_pos x P), (round_pos y) by Lqa.lra. now apply R_proper.
Qed.

#[export] Instance round_Proper : Proper (Qeq ==> Qeq) round.
Proof. intros x y E. now apply round_proper. Qed.

Lemma round_mono (x y : Q) : x <= y -> round x <= round y.
Proof.
  intros H. destruct (Qlt_le_dec x 0) as [Nx|Px]; destruct (Qlt_le_dec y 0) as [Ny|Py].
  - rewrite (round_neg x Nx), (round_neg y Ny).
    assert (R (- y) <= R (- x)) by (apply R_mono; Lqa.lra). Lqa.lra.
  - rewrite (round_neg x Nx), (round_pos y Py).
    pose proof (R_nonneg (- x)) as A. pose proof (R_nonneg y Py). specialize (A ltac:(Lqa.lra)). Lqa.lra.
  - Lqa.lra.
  - rewrite (round_pos x Px), (round_pos y Py). now apply R_mono.
Qed.

Lemma round_opp (x : Q) : round (- x) == - round x.
Proof.
  destruct (Qlt_le_dec x 0) as [N|P].
  - rewrite (round_neg x N), (round_pos (- x)) by Lqa.lra. ring.
  - destruct (Qle_lt_or_eq 0 x P) as [Hp|Hz].
    + rewrite (round_neg (- x)) by Lqa.lra. rewrite (round_pos x P).
      rewrite (R_proper (- - x) x); [reflexivity | Lqa.lra | ring].
    + rewrite (round_pos (- x)) by Lqa.lra. rewrite (round_pos x P).
      unfold R. rewrite !R_at_zero; [ring | rewrite <- Hz; reflexivity | rewrite <- Hz; reflexivity].
Qed.

Lemma round_zero (x : Q) : x == 0 -> round x == 0.
Proof.
  intros H. rewrite (round_pos x) by Lqa.lra. unfold R. now apply R_at_zero.
Qed.

Lemma round_nonneg (x : Q) : 0 <= x -> 0 <= round x.
Proof. intros H. rewrite round_pos by exact H. now apply R_nonneg. Qed.

Lemma round_abs (x : Q) : Qabs (round x) == round (Qabs x).
Proof.
  destruct (Qlt_le_dec x 0) as [N|P].
  - assert (M : round x <= 0).
    { pose proof (round_mono x 0 (Qlt_le_weak _ _ N)) as M.
      rewrite (round_zero 0) in M by reflexivity. exact M. }
    rewrite (Qabs_neg (round x) M). rewrite (Qabs_neg x) by Lqa.lra. rewrite round_opp. reflexivity.
  - rewrite (Qabs_pos x P). apply Qabs_pos, round_nonneg, P.
Qed.

Lemma round_err (x : Q) (k : Z) :
  Qabs x < 2 ^ k -> (-1074 <= k - 53)%Z -> Qabs (round x - x) <= 2 ^ (k - 54).
Proof.
  intros Hx Hk. destruct (Qlt_le_dec x 0) as [N|P].
  - rewrite (round_neg x N). rewrite Qabs_neg in Hx by Lqa.lra.
    pose proof (R_err (- x) k ltac:(split; Lqa.lra) Hk) as E.
    assert (Eq : - R (- x) - x == - (R (- x) - - x)) by ring.
    rewrite Eq, Qabs_opp. exact E.
  - rewrite (round_pos x P). rewrite Qabs_pos in Hx by exact P. now apply R_err.
Qed.

(** the shift loop of [binary_round_aux] *)
Lemma iter_swap {A : Type} (f : A -> A) (n : nat) (x : A) :
  Nat.iter n f (f x) = f (Nat.iter n f x).
Proof. induction n; simpl; congruence. Qed.

Lemma iter_add {A : Type} (f : A -> A) (a b : nat) (x : A) :
  Nat.iter (a + b) f x = Nat.iter a f (Nat.iter b f x).
Proof. induction a; simpl; congruence. Qed.

Lemma iter_pos_nat {A : Type} (f : A -> A) (p : positive) (x : A) :
  iter_pos f p x = Nat.iter (Pos.to_nat p) f x.
Proof.
  revert x. induction p as [p IH|p IH|]; intros x.
  - change (iter_pos f p~1 x) with (iter_pos f p (iter_pos f p (f x))).
    rewrite !IH, Pos2Nat.inj_xI.
    replace (2 * Pos.to_nat p)%nat with (Pos.to_nat p + Pos.to_nat p)%nat by lia.
    rewrite Nat.iter_succ, iter_add, !iter_swap. reflexivity.
  - change (iter_pos f p~0 x) with (iter_pos f p (iter_pos f p x)).
    rewrite !IH, Pos2Nat.inj_xO.
    replace (2 * Pos.to_nat p)%nat with (Pos.to_nat p + Pos.to_nat p)%nat by lia.
    rewrite iter_add. reflexivity.
  - reflexivity.
Qed.

Lemma shr_1_nonneg (q : Z) (r s : bool) : (0 <= q)%Z ->
  shr_1 (Build_shr_record q r s) = Build_shr_record (q / 2) (Z.odd q) (r || s).
Proof.
  intros H. destruct q as [|p|p]; [reflexivity| |lia].
  destruct p as [p|p|]; simpl; f_equal.
  - apply Z.div_unique with 1%Z; lia.
  - apply Z.div_unique with 0%Z; lia.
Qed.

Lemma iter_shr (n : nat) (m : Z) : (0 <= m)%Z ->
  let P := (2 ^ Z.of_nat n)%Z in
  Nat.iter n shr_1 (Build_shr_record m false false) =
  Build_shr_record (m / P) (P <=? 2 * (m mod P))%Z
    (negb (m mod P =? 0)%Z && negb (2 * (m mod P) =? P)%Z).
Proof.
  intros Hm. induction n as [|n IH]; intros P; subst P.
  - simpl. rewrite Z.div_1_r, Z.mod_1_r. reflexivity.
  - rewrite Nat.iter_succ, IH.
    set (P := (2 ^ Z.of_nat n)%Z).
    assert (HP : (0 < P)%Z) by (apply Z.pow_pos_nonneg; lia).
    assert (E : (2 ^ Z.of_nat (S n) = 2 * P)%Z)
      by (rewrite Nat2Z.inj_succ, Z.pow_succ_r by lia; reflexivity).
    rewrite E. rewrite shr_1_nonneg by (apply Z.div_pos; lia).
    pose proof (Z.div_mod m P ltac:(lia)) as D1. pose proof (Z.mod_pos_bound m P HP) as B1.
    set (q := (m / P)%Z) in *. set (r := (m mod P)%Z) in *.
    assert (Hq : (0 <= q)%Z) by (apply Z.div_pos; lia).
    pose proof (Z.div2_odd q) as D2. rewrite Z.div2_div in D2.
    set (q2 := (q / 2)%Z) in *.
    assert (Hb : (0 <= Z.b2z (Z.odd q) <= 1)%Z) by (destruct (Z.odd q); simpl; lia).
    assert (Hdiv : (m / (2 * P) = q2)%Z).
    { symmetry. apply Z.div_unique with (P * Z.b2z (Z.odd q) + r)%Z; nia. }
    assert (Hmod : (m mod (2 * P) = P * Z.b2z (Z.odd q) + r)%Z).
    { symmetry. apply Z.mod_unique with q2; nia. }
    rewrite Hdiv, Hmod. f_equal;
    destruct (Z.odd q); simpl Z.b2z;
    repeat match goal with
           | |- context [Z.leb ?a ?b] => destruct (Z.leb_spec a b)
           | |- context [Z.eqb ?a ?b] => destruct (Z.eqb_spec a b)
           end; simpl; try reflexivity; lia.
Qed.

Definition is_finite (x : spec_float) : bool :=
  match x with S754_zero _ | S754_finite _ _ _ => true | _ => false end.

Definition val (x : spec_float) : Q :=
  match x with
  | S754_finite s m e => if s then - (inject_Z (Zpos m) * 2 ^ e) else inject_Z (Zpos m) * 2 ^ e
  | _ => 0
  end.

Lemma shr_nonpos (mrs : shr_record) (e n : Z) : (n <= 0)%Z -> shr mrs e n = (mrs, e).
Proof. intros H. destruct n; [reflexivity | lia | reflexivity]. Qed.

Lemma rne_loc (m : Z) (Pp : positive) :
  let P := Zpos Pp in
  round_nearest_even (m / P)
    (loc_of_shr_record (Build_shr_record (m / P) (P <=? 2 * (m mod P))%Z
       (negb (m mod P =? 0)%Z && negb (2 * (m mod P) =? P)%Z))) = rne (m # Pp).
Proof.
  intros P. subst P. rewrite rne_divZ. cbv zeta.
  pose proof (Z.mod_pos_bound m (Zpos Pp) ltac:(lia)) as B.
  set (q := (m / Zpos Pp)%Z). set (r := (m mod Zpos Pp)%Z) in *.
  repeat match goal with
         | |- context [Z.leb ?a ?b] => destruct (Z.leb_spec a b)
         | |- context [Z.eqb ?a ?b] => destruct (Z.eqb_spec a b)
         | |- context [Z.ltb ?a ?b] => destruct (Z.ltb_spec a b)
         end; simpl; first [reflexivity | exfalso; lia].
Qed.

Lemma second_step (N E : Z) : (0 <= N <= 2 ^ 53)%Z -> (-1074 <= E)%Z ->
  exists mrs e', shr_fexp prec emax N E loc_Exact = (mrs, e') /\
    inject_Z (shr_m mrs) * 2 ^ e' == inject_Z N * 2 ^ E /\ (e' <= E + 1)%Z /\ (0 <= shr_m mrs)%Z.
Proof.
  intros HN HE. unfold shr_fexp. simpl shr_record_of_loc.
  destruct (Z.eq_dec N (2 ^ 53)%Z) as [Et|Nt].
  - subst N. change (Zdigits2 (2 ^ 53)) with 54%Z.
    replace (fexp prec emax (54 + E) - E)%Z with 1%Z by (unfold fexp, emin, prec, emax; lia).
    eexists _, _. split; [reflexivity|]. simpl. split; [|split; lia].
    rewrite pw_add. rewrite Qmult_assoc, (Qmult_comm _ (2 ^ E)), <- Qmult_assoc, (Qmult_comm (2 ^ E)).
    apply Qmult_comp; [vm_compute; reflexivity | reflexivity].
  - destruct N as [|n|n]; [| |lia].
    + eexists _, _. split.
      * rewrite shr_nonpos; [reflexivity|]. simpl Zdigits2. unfold fexp, emin, prec, emax. lia.
      * simpl. split; [reflexivity | lia].
    + assert (Hs : (Zpos (digits2_pos n) <= 53)%Z).
      { rewrite digits2_pos_size. pose proof (size_bounds n) as [S1 _].
        assert (Zpos (Pos.size n) - 1 < 53)%Z; [|lia].
        apply (Z.pow_lt_mono_r_iff 2); [lia | lia | lia]. }
      eexists _, _. split.
      * rewrite shr_nonpos; [reflexivity|]. simpl Zdigits2. unfold fexp, emin, prec, emax. lia.
      * simpl. split; [reflexivity | lia].
Qed.

Lemma round_aux_spec (s : bool) (m : positive) (e : Z) :
  inject_Z (Zpos m) * 2 ^ e < 2 ^ 900 ->
  let r := binary_round_aux prec emax s (Zpos m) e loc_Exact in
  is_finite r = true /\
  val r == (if s then - R (inject_Z (Zpos m) * 2 ^ e) else R (inject_Z (Zpos m) * 2 ^ e)).
Proof.
  intros Hb r. subst r.
  pose proof (pair_bounds m e) as [L U].
  set (x := inject_Z (Zpos m) * 2 ^ e) in *.
  set (K := (Zpos (digits2_pos m) + e)%Z) in *.
  assert (HK : (K <= 900)%Z) by (assert (K - 1 < 900)%Z by (apply pw_lt_inv; Lqa.lra); lia).
  assert (Hd1 : (1 <= Zpos (digits2_pos m))%Z) by lia.
  unfold R. assert (HM : magQ x = K) by apply magQ_pair. rewrite HM.
  set (E := fexp64 K).
  assert (HE : E = Z.max (K - 53) (-1074)) by reflexivity.
  unfold binary_round_aux.
  destruct (Z_le_gt_dec (E - e) 0) as [Hd|Hd].
  - assert (S1 : shr_fexp prec emax (Zpos m) e loc_Exact = (Build_shr_record (Zpos m) false false, e)).
    { unfold shr_fexp. simpl shr_record_of_loc. apply shr_nonpos.
      change (Zdigits2 (Zpos m)) with (Zpos (digits2_pos m)). fold K. exact Hd. }
    rewrite S1. cbn [shr_m loc_of_shr_record round_nearest_even]. rewrite S1.
    cbn [shr_m]. change (emax - prec)%Z with 971%Z.
    rewrite (proj2 (Z.leb_le e 971)) by lia.
    assert (Hx : R_at E x == x).
    { assert (Ex : x == inject_Z (Zpos m * 2 ^ (e - E)) * 2 ^ E).
      { unfold x. rewrite inject_Z_mult, <- pw_Z by lia. rewrite <- Qmult_assoc, <- pw_add.
        now replace (e - E + E)%Z with e by lia. }
      rewrite (R_at_proper E x _ Ex), R_at_fix. symmetry. exact Ex. }
    split; [reflexivity|]. destruct s; simpl; fold x; rewrite Hx; reflexivity.
  - destruct (E - e)%Z as [|d|d] eqn:Hd'; try lia.
    set (Pp := (2 ^ d)%positive).
    assert (HP : (2 ^ Zpos d)%Z = Zpos Pp) by (unfold Pp; now rewrite Pos2Z.inj_pow).
    assert (S1 : shr_fexp prec emax (Zpos m) e loc_Exact =
      (Build_shr_record (Zpos m / Zpos Pp) (Zpos Pp <=? 2 * (Zpos m mod Zpos Pp))%Z
         (negb (Zpos m mod Zpos Pp =? 0)%Z && negb (2 * (Zpos m mod Zpos Pp) =? Zpos Pp)%Z), E)).
    { unfold shr_fexp. simpl shr_record_of_loc.
      change (Zdigits2 (Zpos m)) with (Zpos (digits2_pos m)). fold K.
      change (fexp prec emax K) with E. rewrite Hd'. unfold shr.
      rewrite iter_pos_nat, iter_shr by lia. rewrite positive_nat_Z, HP.
      f_equal. lia. }
    rewrite S1. cbn [shr_m]. rewrite rne_loc.
    assert (Ediv : x / 2 ^ E == Zpos m # Pp).
    { unfold x. replace E with (e + Zpos d)%Z by lia. rewrite pw_add, (pw_Z (Zpos d)), HP by lia.
      rewrite (Qmake_Qdiv (Zpos m) Pp). set (t := 2 ^ e). assert (~ t == 0) by apply pw_nz. field.
      repeat split; first [apply pw_nz | intro Hc; unfold Qeq in Hc; simpl in Hc; lia]. }
    rewrite <- (rne_proper _ _ Ediv).
    set (N := rne (x / 2 ^ E)).
    assert (HN : (0 <= N <= 2 ^ 53)%Z).
    { split.
      - rewrite <- (rne_Z 0). apply rne_mono. apply Qle_shift_div_l; [apply pw_pos|].
        pose proof (pw_pos E). pose proof (pw_pos e). unfold x. simpl.
        assert (0 <= inject_Z (Zpos m)) by (unfold Qle; simpl; lia). 
        change (inject_Z 0) with 0. rewrite Qmult_0_l. apply Qmult_le_0_compat; Lqa.lra.
      - rewrite <- (rne_Z (2 ^ 53)). apply rne_mono. apply Qle_shift_div_r; [apply pw_pos|].
        rewrite <- pw_Z by lia. rewrite <- pw_add.
        apply Qle_trans with (2 ^ K); [Lqa.lra | apply pw_le; lia]. }
    destruct (second_step N E HN ltac:(lia)) as (mrs & e' & S2 & V2 & B2 & P2).
    rewrite S2.
    destruct (shr_m mrs) as [|m''|m''] eqn:Em; [| |lia].
    + split; [reflexivity|]. unfold R_at. fold N.
      assert (Z0 : inject_Z N * 2 ^ E == 0) by (rewrite <- V2; ring).
      destruct s; simpl; rewrite Z0; reflexivity.
    + change (emax - prec)%Z with 971%Z. rewrite (proj2 (Z.leb_le e' 971)) by lia.
      split; [reflexivity|]. unfold R_at. fold N.
      destruct s; simpl; rewrite V2; reflexivity.
Qed.

Lemma inject_Z_neg (p : positive) : inject_Z (Zneg p) == - inject_Z (Zpos p).
Proof. reflexivity. Qed.

Lemma pos_Q (m : positive) : 0 < inject_Z (Zpos m).
Proof. unfold Qlt; simpl; lia. Qed.

Lemma pair_pos (m : positive) (e : Z) : 0 < inject_Z (Zpos m) * 2 ^ e.
Proof. apply Qmult_lt_0_compat; [apply pos_Q | apply pw_pos]. Qed.

Lemma round_aux_val (s : bool) (m : positive) (e : Z) :
  inject_Z (Zpos m) * 2 ^ e < 2 ^ 900 ->
  is_finite (binary_round_aux prec emax s (Zpos m) e loc_Exact) = true /\
  val (binary_round_aux prec emax s (Zpos m) e loc_Exact) ==
    round (if s then - (inject_Z (Zpos m) * 2 ^ e) else inject_Z (Zpos m) * 2 ^ e).
Proof.
  intros H. destruct (round_aux_spec s m e H) as [F V]. split; [exact F|]. rewrite V.
  pose proof (pair_pos m e) as P.
  destruct s.
  - rewrite round_neg by Lqa.lra.
    rewrite (R_proper (- - (inject_Z (Zpos m) * 2 ^ e)) (inject_Z (Zpos m) * 2 ^ e)) by (Lqa.lra || ring).
    reflexivity.
  - rewrite round_pos by Lqa.lra. reflexivity.
Qed.

Lemma iter_xO (m d : positive) : Zpos (Pos.iter xO m d) = (Zpos m * 2 ^ Zpos d)%Z.
Proof.
  induction d using Pos.peano_ind.
  - simpl. lia.
  - rewrite Pos.iter_succ. change (Zpos (xO (Pos.iter xO m d))) with (2 * Zpos (Pos.iter xO m d))%Z.
    rewrite IHd, Pos2Z.inj_succ, Z.pow_succ_r by lia. ring.
Qed.

Lemma shl_align_val (m : positive) (e e' : Z) :
  inject_Z (Zpos (fst (shl_align m e e'))) * 2 ^ snd (shl_align m e e') == inject_Z (Zpos m) * 2 ^ e.
Proof.
  unfold shl_align. destruct (e' - e)%Z as [|d|d] eqn:Hd; simpl fst; simpl snd; try reflexivity.
  rewrite iter_xO, inject_Z_mult, <- pw_Z by lia.
  rewrite <- Qmult_assoc, <- pw_add. replace (Zpos d + e')%Z with e by lia. reflexivity.
Qed.

Lemma shl_align_le (m : positive) (e e' : Z) : (e' <= e)%Z ->
  inject_Z (Zpos (fst (shl_align m e e'))) * 2 ^ e' == inject_Z (Zpos m) * 2 ^ e.
Proof.
  intros H. pose proof (shl_align_val m e e') as V. unfold shl_align in *.
  destruct (e' - e)%Z as [|d|d] eqn:Hd; simpl fst in *; simpl snd in *.
  - now replace e' with e by lia.
  - lia.
  - exact V.
Qed.

Lemma binary_round_val (s : bool) (m : positive) (e : Z) :
  inject_Z (Zpos m) * 2 ^ e < 2 ^ 900 ->
  is_finite (binary_round prec emax s m e) = true /\
  val (binary_round prec emax s m e) ==
    round (if s then - (inject_Z (Zpos m) * 2 ^ e) else inject_Z (Zpos m) * 2 ^ e).
Proof.
  intros H. unfold binary_round.
  pose proof (shl_align_val m e (fexp prec emax (Zpos (digits2_pos m) + e))) as V.
  destruct (shl_align m e (fexp prec emax (Zpos (digits2_pos m) + e))) as [mz ez].
  simpl fst in V; simpl snd in V.
  destruct (round_aux_val s mz ez) as [F W]; [rewrite V; exact H|].
  split; [exact F|]. rewrite W. destruct s; rewrite V; reflexivity.
Qed.

Lemma normalize_val (n e : Z) (sz : bool) :
  Qabs (inject_Z n * 2 ^ e) < 2 ^ 900 ->
  is_finite (binary_normalize prec emax n e sz) = true /\
  val (binary_normalize prec emax n e sz) == round (inject_Z n * 2 ^ e).
Proof.
  intros H. destruct n as [|m|m]; simpl binary_normalize.
  - split; [reflexivity|]. symmetry. apply round_zero. apply Qmult_0_l.
  - pose proof (pair_pos m e) as P. rewrite Qabs_pos in H by Lqa.lra.
    exact (binary_round_val false m e H).
  - pose proof (pair_pos m e) as P.
    assert (Eneg : inject_Z (Zneg m) * 2 ^ e == - (inject_Z (Zpos m) * 2 ^ e)).
    { change (Zneg m) with (- Zpos m)%Z. rewrite inject_Z_opp. ring. }
    rewrite Eneg, Qabs_opp, Qabs_pos in H by Lqa.lra.
    destruct (binary_round_val true m e H) as [F V]. split; [exact F|].
    rewrite V, Eneg. reflexivity.
Qed.

Lemma valid_fix (x : spec_float) :
  valid_binary prec emax x = true -> is_finite x = true -> round (val x) == val x.
Proof.
  destruct x as [s|s| |s m e]; try discriminate; intros Hv _.
  - simpl. apply round_zero. reflexivity.
  - simpl in Hv. unfold bounded, canonical_mantissa in Hv.
    apply andb_prop in Hv as [Hc _]. apply Z.eqb_eq in Hc.
    assert (Hr : R (inject_Z (Zpos m) * 2 ^ e) == inject_Z (Zpos m) * 2 ^ e) by (apply R_fix; exact Hc).
    pose proof (pair_pos m e) as P.
    destruct s; simpl val.
    + rewrite round_neg by Lqa.lra.
      rewrite (R_proper (- - (inject_Z (Zpos m) * 2 ^ e)) (inject_Z (Zpos m) * 2 ^ e)) by (Lqa.lra || ring).
      rewrite Hr. reflexivity.
    + rewrite round_pos by Lqa.lra. exact Hr.
Qed.

Lemma aligned_val (s : bool) (m : positive) (e e' : Z) : (e' <= e)%Z ->
  inject_Z (cond_Zopp s (Zpos (fst (shl_align m e e')))) * 2 ^ e' == val (S754_finite s m e).
Proof.
  intros H. pose proof (shl_align_le m e e' H) as V.
  destruct s; simpl val; unfold cond_Zopp; [rewrite inject_Z_opp|]; rewrite <- V; ring.
Qed.

Lemma fsub_spec (x y : spec_float) :
  valid_binary prec emax x = true -> valid_binary prec emax y = true ->
  is_finite x = true -> is_finite y = true ->
  Qabs (val x - val y) < 2 ^ 900 ->
  is_finite (SFsub prec emax x y) = true /\ val (SFsub prec emax x y) == round (val x - val y).
Proof.
  intros Vx Vy Fx Fy H.
  destruct x as [sx|sx| |sx mx ex]; try discriminate;
    destruct y as [sy|sy| |sy my ey]; try discriminate.
  - destruct sx, sy; simpl; (split; [reflexivity|]); symmetry; apply round_zero; ring.
  - split; [reflexivity|].
    change (SFsub prec emax (S754_zero sx) (S754_finite sy my ey)) with (S754_finite (negb sy) my ey).
    rewrite (round_proper (val (S754_zero sx) - val (S754_finite sy my ey)) (- val (S754_finite sy my ey)))
      by (simpl val; ring).
    rewrite round_opp, (valid_fix _ Vy eq_refl).
    destruct sy; simpl; ring.
  - split; [reflexivity|].
    change (SFsub prec emax (S754_finite sx mx ex) (S754_zero sy)) with (S754_finite sx mx ex).
    rewrite (round_proper (val (S754_finite sx mx ex) - val (S754_zero sy)) (val (S754_finite sx mx ex)))
      by (simpl val at 2; ring).
    symmetry. apply (valid_fix _ Vx eq_refl).
  - change (SFsub prec emax (S754_finite sx mx ex) (S754_finite sy my ey)) with
      (binary_normalize prec emax
         (cond_Zopp sx (Zpos (fst (shl_align mx ex (Z.min ex ey)))) -
          cond_Zopp sy (Zpos (fst (shl_align my ey (Z.min ex ey)))))%Z (Z.min ex ey) false).
    assert (Ev : inject_Z (cond_Zopp sx (Zpos (fst (shl_align mx ex (Z.min ex ey)))) -
                           cond_Zopp sy (Zpos (fst (shl_align my ey (Z.min ex ey))))) * 2 ^ Z.min ex ey ==
                 val (S754_finite sx mx ex) - val (S754_finite sy my ey)).
    { rewrite <- (aligned_val sx mx ex (Z.min ex ey)) by lia.
      rewrite <- (aligned_val sy my ey (Z.min ex ey)) by lia.
      unfold Z.sub. rewrite inject_Z_plus, inject_Z_opp. ring. }
    destruct (normalize_val (cond_Zopp sx (Zpos (fst (shl_align mx ex (Z.min ex ey)))) -
          cond_Zopp sy (Zpos (fst (shl_align my ey (Z.min ex ey)))))%Z (Z.min ex ey) false) as [F V];
      [rewrite Ev; exact H|].
    split; [exact F|]. rewrite V. apply round_proper. exact Ev.
Qed.

Lemma fmul_spec (x y : spec_float) :
  is_finite x = true -> is_finite y = true ->
  Qabs (val x * val y) < 2 ^ 900 ->
  is_finite (SFmul prec emax x y) = true /\ val (SFmul prec emax x y) == round (val x * val y).
Proof.
  intros Fx Fy H.
  destruct x as [sx|sx| |sx mx ex]; try discriminate;
    destruct y as [sy|sy| |sy my ey]; try discriminate;
    try (split; [reflexivity|]; symmetry; apply round_zero; simpl val; ring).
  change (SFmul prec emax (S754_finite sx mx ex) (S754_finite sy my ey)) with
    (binary_round_aux prec emax (xorb sx sy) (Zpos (mx * my)) (ex + ey) loc_Exact).
  assert (Ep : inject_Z (Zpos (mx * my)) * 2 ^ (ex + ey) ==
               (inject_Z (Zpos mx) * 2 ^ ex) * (inject_Z (Zpos my) * 2 ^ ey)).
  { rewrite Pos2Z.inj_mul, inject_Z_mult, pw_add. ring. }
  assert (Ea : Qabs (val (S754_finite sx mx ex) * val (S754_finite sy my ey)) ==
               inject_Z (Zpos (mx * my)) * 2 ^ (ex + ey)).
  { rewrite Ep, Qabs_Qmult. pose proof (pair_pos mx ex). pose proof (pair_pos my ey).
    destruct sx, sy; simpl val; rewrite ?Qabs_opp, !Qabs_pos by Lqa.lra; reflexivity. }
  destruct (round_aux_val (xorb sx sy) (mx * my) (ex + ey)) as [F V]; [rewrite <- Ea; exact H|].
  split; [exact F|]. rewrite V. apply round_proper.
  destruct sx, sy; simpl xorb; simpl val; cbv iota; rewrite Ep; ring.
Qed.

Lemma fabs_spec (x : spec_float) :
  is_finite (SFabs x) = is_finite x /\ val (SFabs x) == Qabs (val x).
Proof.
  destruct x as [s|s| |s m e]; simpl; (split; [reflexivity|]); try reflexivity.
  pose proof (pair_pos m e). destruct s; [rewrite Qabs_opp|]; rewrite Qabs_pos by Lqa.lra; reflexivity.
Qed.

(** Python's [int()] on a float: truncation toward zero; [int()] of an
    infinity or a NaN raises, modelled as [None]. *)
Definition float_int (x : spec_float) : option Z :=
  match x with
  | S754_zero _ => Some 0%Z
  | S754_finite s m e => Some (cond_Zopp s (Z.shiftl (Zpos m) e))
  | _ => None
  end.

Lemma float_int_spec (x : spec_float) :
  is_finite x = true -> 0 <= val x -> float_int x = Some (Qfloor (val x)).
Proof.
  destruct x as [s|s| |s m e]; try discriminate; intros _ H.
  - reflexivity.
  - pose proof (pair_pos m e). destruct s; simpl val in H; [Lqa.lra|].
    simpl float_int. simpl val. f_equal. simpl cond_Zopp.
    destruct (Z_le_gt_dec 0 e) as [He|He].
    + rewrite Z.shiftl_mul_pow2 by lia. rewrite (pw_Z e) by lia.
      rewrite <- inject_Z_mult, Qfloor_Z. reflexivity.
    + destruct e as [|k|k]; try lia.
      change (Zneg k) with (- Zpos k)%Z.
      rewrite Z.shiftl_opp_r, Z.shiftr_div_pow2 by lia.
      rewrite <- Pos2Z.inj_pow.
      assert (Eq : inject_Z (Zpos m) * 2 ^ (- Zpos k) == Zpos m # (2 ^ k)).
      { rewrite Qpower_opp, (pw_Z (Zpos k)) by lia. rewrite <- Pos2Z.inj_pow.
        rewrite (Qmake_Qdiv (Zpos m) (2 ^ k)). reflexivity. }
      rewrite (Qfloor_comp _ _ Eq). reflexivity.
Qed.

Lemma canon_bounds (m : positive) (e : Z) :
  canonical_mantissa prec emax m e = true ->
  (-1074 <= e)%Z /\ (Zpos (digits2_pos m) <= 53)%Z /\
  ((-1074 < e)%Z -> Zpos (digits2_pos m) = 53%Z).
Proof.
  unfold canonical_mantissa. intros H. apply Z.eqb_eq in H.
  change (fexp prec emax (Zpos (digits2_pos m) + e)) with (fexp64 (Zpos (digits2_pos m) + e)) in H.
  rewrite fexp64_eq in H. lia.
Qed.

Lemma canon_lt (m1 m2 : positive) (e1 e2 : Z) :
  canonical_mantissa prec emax m1 e1 = true -> canonical_mantissa prec emax m2 e2 = true ->
  (e1 < e2)%Z -> inject_Z (Zpos m1) * 2 ^ e1 < inject_Z (Zpos m2) * 2 ^ e2.
Proof.
  intros C1 C2 H. apply canon_bounds in C1 as (A1 & B1 & _).
  apply canon_bounds in C2 as (A2 & B2 & D2). specialize (D2 ltac:(lia)).
  destruct (pair_bounds m1 e1) as [_ U]. destruct (pair_bounds m2 e2) as [L _].
  apply Qlt_le_trans with (2 ^ (Zpos (digits2_pos m1) + e1)); [exact U|].
  apply Qle_trans with (2 ^ (Zpos (digits2_pos m2) + e2 - 1)); [apply pw_le; lia | exact L].
Qed.

Lemma pos_cmp_Q (m1 m2 : positive) (e : Z) (c : comparison) :
  Pos.compare m1 m2 = c ->
  (inject_Z (Zpos m1) * 2 ^ e ?= inject_Z (Zpos m2) * 2 ^ e) = c.
Proof.
  intros Hc. pose proof (pw_pos e) as P.
  destruct c.
  - apply Pos.compare_eq_iff in Hc. subst. apply Qeq_alt. reflexivity.
  - apply Pos.compare_lt_iff, Pos2Z.pos_lt_pos in Hc. apply Qlt_alt. apply Qmult_lt_r; [exact P|].
    unfold Qlt; simpl; lia.
  - apply Pos.compare_gt_iff, Pos2Z.pos_lt_pos in Hc. apply Qgt_alt. apply Qmult_lt_r; [exact P|].
    unfold Qlt; simpl; lia.
Qed.

Lemma opp_cmp (a b : Q) : (- a ?= - b) = CompOpp (a ?= b).
Proof.
  destruct (Qcompare_spec a b) as [H|H|H].
  - apply Qeq_alt. now rewrite H.
  - apply Qgt_alt. apply Qopp_lt_compat. exact H.
  - apply Qlt_alt. apply Qopp_lt_compat. exact H.
Qed.

Lemma neg_lt0 (x : Q) : 0 < x -> - x < 0.
Proof. intros H. Lqa.lra. Qed.

Lemma neg_lt_pos (x y : Q) : 0 < x -> 0 < y -> - x < y.
Proof. intros H1 H2. Lqa.lra. Qed.

Lemma compare_spec (x y : spec_float) :
  valid_binary prec emax x = true -> valid_binary prec emax y = true ->
  is_finite x = true -> is_finite y = true ->
  SFcompare x y = Some (val x ?= val y).
Proof.
  intros Vx Vy Fx Fy.
  destruct x as [sx|sx| |sx mx ex]; try discriminate;
    destruct y as [sy|sy| |sy my ey]; try discriminate.
  - reflexivity.
  - pose proof (pair_pos my ey). destruct sy; simpl; f_equal; symmetry.
    + apply Qgt_alt. now apply neg_lt0.
    + apply Qlt_alt. assumption.
  - pose proof (pair_pos mx ex). destruct sx; simpl; f_equal; symmetry.
    + apply Qlt_alt. now apply neg_lt0.
    + apply Qgt_alt. assumption.
  - simpl in Vx, Vy. unfold bounded in Vx, Vy.
    apply andb_prop in Vx as [Cx _]. apply andb_prop in Vy as [Cy _].
    pose proof (pair_pos mx ex). pose proof (pair_pos my ey).
    change (Pos.compare_cont Eq mx my) with (Pos.compare mx my).
    destruct sx, sy; simpl SFcompare; simpl val; f_equal; symmetry.
    + rewrite opp_cmp. destruct (Z.compare ex ey) eqn:Hc.
      * apply Z.compare_eq_iff in Hc. subst ey. rewrite (pos_cmp_Q mx my ex _ eq_refl). reflexivity.
      * apply Z.compare_lt_iff in Hc. pose proof (canon_lt mx my ex ey Cx Cy Hc).
        rewrite (proj1 (Qlt_alt _ _)) by exact H1. reflexivity.
      * apply Z.compare_gt_iff in Hc. pose proof (canon_lt my mx ey ex Cy Cx Hc).
        rewrite (proj1 (Qgt_alt _ _)) by exact H1. reflexivity.
    + apply Qlt_alt. now apply neg_lt_pos.
    + apply Qgt_alt. now apply neg_lt_pos.
    + destruct (Z.compare ex ey) eqn:Hc.
      * apply Z.compare_eq_iff in Hc. subst ey. apply pos_cmp_Q. reflexivity.
      * apply Z.compare_lt_iff in Hc. apply Qlt_alt. exact (canon_lt mx my ex ey Cx Cy Hc).
      * apply Z.compare_gt_iff in Hc. apply Qgt_alt. exact (canon_lt my mx ey ex Cy Cx Hc).
Qed.

Lemma fltb_spec (x y : spec_float) :
  valid_binary prec emax x = true -> valid_binary prec emax y = true ->
  is_finite x = true -> is_finite y = true ->
  (SFltb x y = true <-> val x < val y).
Proof.
  intros Vx Vy Fx Fy. unfold SFltb. rewrite (compare_spec x y Vx Vy Fx Fy), Qlt_alt.
  destruct (val x ?= val y); split; congruence.
Qed.

(** Python's [float(n)] of an integer, and a decimal literal [n/d] as the
    parser reads it: the quotient rounded once to nearest even. *)
Definition of_Z (n : Z) : spec_float := binary_normalize prec emax n 0 false.
Definition lit (n d : Z) : spec_float := SFdiv prec emax (of_Z n) (of_Z d).

Lemma floor_le_Z (q : Q) (z : Z) : q <= inject_Z z -> (Qfloor q <= z)%Z.
Proof. intros Hq. rewrite <- (Qfloor_Z z). now apply Qfloor_resp_le. Qed.

Lemma Z_le_floor (q : Q) (z : Z) : inject_Z z <= q -> (z <= Qfloor q)%Z.
Proof. intros Hq. rewrite <- (Qfloor_Z z) at 1. now apply Qfloor_resp_le. Qed.

Lemma floor_close (x y : Q) : Qabs (y - x) < 1 -> (Qfloor x - 1 <= Qfloor y <= Qfloor x + 1)%Z.
Proof.
  intros H. apply Qabs_Qlt_condition in H as [H1 H2].
  pose proof (Qfloor_le x) as Fx. pose proof (Qlt_floor x) as Gx.
  pose proof (Qfloor_le y) as Fy. pose proof (Qlt_floor y) as Gy.
  rewrite inject_Z_plus in Gx, Gy. change (inject_Z 1) with 1 in Gx, Gy.
  assert (Hl : (Qfloor x < Qfloor y + 2)%Z).
  { rewrite Zlt_Qlt, inject_Z_plus. change (inject_Z 2) with 2. Lqa.lra. }
  assert (Hu : (Qfloor y < Qfloor x + 2)%Z).
  { rewrite Zlt_Qlt, inject_Z_plus. change (inject_Z 2) with 2. Lqa.lra. }
  lia.
Qed.

Lemma pw900 : 128 <= 2 ^ 900.
Proof. apply (pw_le 7 900). lia. Qed.

End Float64.

(* ------------------------------------------------------------------ *)
(** ** The score functions of [PredictionModel] on binary64 probabilities *)

Module Scores64.
Import SpecFloat Float64 QMicromega.
Local Open Scope Q_scope.

Definition calculate_risk_level (probability : spec_float) : string :=
  if SFltb probability (lit 3 10) then "low"
  else if SFltb probability (lit 7 10) then "medium"
  else "high".

Definition calculate_confidence (probability : spec_float) : option Z :=
  let distance_from_uncertain := SFabs (SFsub prec emax probability (lit 5 10)) in
  match float_int (SFmul prec emax (SFmul prec emax distance_from_uncertain (of_Z 2)) (of_Z 100)) with
  | Some confidence => Some (Z.max 50 (Z.min 100 confidence))
  | None => None
  end.

Definition calculate_health_score (probability : spec_float) : option Z :=
  match float_int (SFmul prec emax (SFsub prec emax (of_Z 1) probability) (of_Z 100)) with
  | Some health_score => Some (Z.max 0 (Z.min 100 health_score))
  | None => None
  end.

(** The formulas of the spec (section 4.5), written from its words: the same
    float expressions, with Python's [round()] where the code has [int()]. *)
Definition spec_confidence (probability : spec_float) : Z :=
  Z.max 50 (Z.min 100 (Scores.py_round (val (SFmul prec emax
    (SFmul prec emax (SFabs (SFsub prec emax probability (lit 5 10))) (of_Z 2)) (of_Z 100))))).

Definition spec_health_score (probability : spec_float) : Z :=
  Z.max 0 (Z.min 100 (Scores.py_round (val (SFmul prec emax (SFsub prec emax (of_Z 1) probability) (of_Z 100))))).

(** A probability as [predict] returns it: a finite binary64 value in
    [[0, 1]]. *)
Definition probability_ok (p : spec_float) : bool :=
  valid_binary prec emax p && is_finite p && Qle_bool 0 (val p) && Qle_bool (val p) 1.

Lemma probability_ok_spec (p : spec_float) :
  probability_ok p = true ->
  valid_binary prec emax p = true /\ is_finite p = true /\ 0 <= val p <= 1.
Proof.
  unfold probability_ok. intros H.
  apply andb_prop in H as [H H1]. apply andb_prop in H as [H H0].
  apply andb_prop in H as [Hv Hf].
  apply Qle_bool_iff in H0. apply Qle_bool_iff in H1. auto.
Qed.

Lemma const_facts :
  valid_binary prec emax (of_Z 1) = true /\ is_finite (of_Z 1) = true /\ val (of_Z 1) == 1 /\
  is_finite (of_Z 2) = true /\ val (of_Z 2) == 2 /\
  is_finite (of_Z 100) = true /\ val (of_Z 100) == 100 /\
  valid_binary prec emax (lit 5 10) = true /\ is_finite (lit 5 10) = true /\ val (lit 5 10) == 1 # 2 /\
  valid_binary prec emax (lit 3 10) = true /\ is_finite (lit 3 10) = true /\
  valid_binary prec emax (lit 7 10) = true /\ is_finite (lit 7 10) = true /\
  round 1 == 1 /\ round (1 # 2) == 1 # 2 /\ round 100 == 100.
Proof. vm_compute. repeat split; reflexivity. Qed.

Lemma round_le_fix (x c : Q) : round c == c -> x <= c -> round x <= c.
Proof. intros Hc H. apply Qle_trans with (round c); [now apply round_mono | rewrite Hc; apply Qle_refl]. Qed.

(** The value the code computes for [(1 - p) * 100], before [int()]. *)
Definition health_value (v : Q) : Q := round (round (1 - v) * 100).

(** The value the code computes for [(|p - 0.5| * 2) * 100], before [int()],
    as a function of the distance [|p - 0.5|]. *)
Definition confidence_value (a : Q) : Q := round (round (round a * 2) * 100).

Lemma health_steps (p : spec_float) :
  probability_ok p = true ->
  let t := SFmul prec emax (SFsub prec emax (of_Z 1) p) (of_Z 100) in
  is_finite t = true /\ val t == health_value (val p).
Proof.
  intros Hp t. subst t. apply probability_ok_spec in Hp as (Vp & Fp & P0 & P1).
  destruct const_facts as (V1 & F1 & E1 & _ & _ & F100 & E100 & _ & _ & _ & _ & _ & _ & _ & R1 & _ & R100).
  pose proof pw900.
  destruct (fsub_spec (of_Z 1) p V1 Vp F1 Fp) as [Fs Es].
  { rewrite E1. apply Qabs_Qlt_condition. Lqa.lra. }
  assert (B : 0 <= val (SFsub prec emax (of_Z 1) p) <= 1).
  { rewrite Es, E1. split.
    - apply round_nonneg. Lqa.lra.
    - apply (round_le_fix _ _ R1). Lqa.lra. }
  destruct (fmul_spec _ _ Fs F100) as [Fm Em].
  { rewrite E100. apply Qabs_Qlt_condition. Lqa.lra. }
  split; [exact Fm|]. rewrite Em. unfold health_value. apply round_proper.
  rewrite Es, E1, E100. reflexivity.
Qed.

Lemma health_value_range (v : Q) : 0 <= v <= 1 -> 0 <= health_value v <= 100.
Proof.
  intros Hv. destruct const_facts as (_ & _ & _ & _ & _ & _ & _ & _ & _ & _ & _ & _ & _ & _ & R1 & _ & R100).
  assert (B : 0 <= round (1 - v) <= 1).
  { split; [apply round_nonneg; Lqa.lra | apply (round_le_fix _ _ R1); Lqa.lra]. }
  unfold health_value. split.
  - apply round_nonneg. Lqa.lra.
  - apply (round_le_fix _ _ R100). Lqa.lra.
Qed.

Lemma health_value_mono (v w : Q) : v <= w -> health_value w <= health_value v.
Proof.
  intros H. unfold health_value. apply round_mono.
  apply Qmult_le_compat_r; [|discriminate]. apply round_mono. Lqa.lra.
Qed.

Lemma health_value_err (v : Q) : 0 <= v <= 1 ->
  Qabs (health_value v - (1 - v) * 100) <= 1 # 1000.
Proof.
  intros Hv. destruct const_facts as (_ & _ & _ & _ & _ & _ & _ & _ & _ & _ & _ & _ & _ & _ & R1 & _ & R100).
  assert (B : 0 <= round (1 - v) <= 1).
  { split; [apply round_nonneg; Lqa.lra | apply (round_le_fix _ _ R1); Lqa.lra]. }
  assert (E1 : Qabs (round (1 - v) - (1 - v)) <= 2 ^ (1 - 54)).
  { apply round_err; [apply Qabs_Qlt_condition; change (2 ^ 1) with 2; Lqa.lra | lia]. }
  assert (E2 : Qabs (round (round (1 - v) * 100) - round (1 - v) * 100) <= 2 ^ (7 - 54)).
  { apply round_err; [apply Qabs_Qlt_condition; change (2 ^ 7) with 128; Lqa.lra | lia]. }
  change (2 ^ (1 - 54)) with (1 # 9007199254740992) in E1.
  change (2 ^ (7 - 54)) with (1 # 140737488355328) in E2.
  apply Qabs_Qle_condition in E1 as [E1a E1b]. apply Qabs_Qle_condition in E2 as [E2a E2b].
  apply Qabs_Qle_condition. unfold health_value. Lqa.lra.
Qed.

Lemma health_formula (p : spec_float) :
  probability_ok p = true ->
  calculate_health_score p = Some (Qfloor (health_value (val p))).
Proof.
  intros Hp. pose proof (probability_ok_spec p Hp) as (_ & _ & Hv).
  destruct (health_steps p Hp) as [F E].
  pose proof (health_value_range _ Hv) as [H0 H1].
  unfold calculate_health_score. rewrite float_int_spec by (exact F || (rewrite E; exact H0)).
  rewrite (Qfloor_comp _ _ E).
  pose proof (floor_le_Z _ 100 H1). pose proof (Z_le_floor _ 0 H0). f_equal. lia.
Qed.

Lemma confidence_steps (p : spec_float) :
  probability_ok p = true ->
  let t := SFmul prec emax (SFmul prec emax (SFabs (SFsub prec emax p (lit 5 10))) (of_Z 2)) (of_Z 100) in
  is_finite t = true /\ val t == confidence_value (Qabs (val p - (1 # 2))).
Proof.
  intros Hp t. subst t. apply probability_ok_spec in Hp as (Vp & Fp & P0 & P1).
  destruct const_facts as (_ & _ & _ & F2 & E2 & F100 & E100 & V5 & F5 & E5 & _ & _ & _ & _ & R1 & Rh & _).
  pose proof pw900.
  destruct (fsub_spec p (lit 5 10) Vp V5 Fp F5) as [Fs Es].
  { rewrite E5. apply Qabs_Qlt_condition. Lqa.lra. }
  destruct (fabs_spec (SFsub prec emax p (lit 5 10))) as [Fa Ea]. rewrite Fs in Fa.
  assert (Ha : val (SFabs (SFsub prec emax p (lit 5 10))) == round (Qabs (val p - (1 # 2)))).
  { rewrite Ea, Es, E5. apply round_abs. }
  assert (Hd : 0 <= Qabs (val p - (1 # 2)) <= 1 # 2).
  { split; [apply Qabs_nonneg | apply Qabs_Qle_condition; Lqa.lra]. }
  assert (B1 : 0 <= round (Qabs (val p - (1 # 2))) <= 1 # 2).
  { split; [apply round_nonneg; apply Hd | apply (round_le_fix _ _ Rh); apply Hd]. }
  destruct (fmul_spec _ _ Fa F2) as [Fm Em].
  { rewrite E2, Ha. apply Qabs_Qlt_condition. Lqa.lra. }
  assert (Hm : val (SFmul prec emax (SFabs (SFsub prec emax p (lit 5 10))) (of_Z 2)) ==
               round (round (Qabs (val p - (1 # 2))) * 2)).
  { rewrite Em. apply round_proper. rewrite Ha, E2. reflexivity. }
  assert (B2 : 0 <= round (round (Qabs (val p - (1 # 2))) * 2) <= 1).
  { split; [apply round_nonneg; Lqa.lra | apply (round_le_fix _ _ R1); Lqa.lra]. }
  destruct (fmul_spec _ _ Fm F100) as [Fm' Em'].
  { rewrite E100, Hm. apply Qabs_Qlt_condition. Lqa.lra. }
  split; [exact Fm'|]. rewrite Em'. unfold confidence_value. apply round_proper.
  rewrite Hm, E100. reflexivity.
Qed.

Lemma confidence_value_range (a : Q) : 0 <= a <= 1 # 2 -> 0 <= confidence_value a <= 100.
Proof.
  intros Ha. destruct const_facts as (_ & _ & _ & _ & _ & _ & _ & _ & _ & _ & _ & _ & _ & _ & R1 & Rh & R100).
  assert (B1 : 0 <= round a <= 1 # 2).
  { split; [apply round_nonneg; apply Ha | apply (round_le_fix _ _ Rh); apply Ha]. }
  assert (B2 : 0 <= round (round a * 2) <= 1).
  { split; [apply round_nonneg; Lqa.lra | apply (round_le_fix _ _ R1); Lqa.lra]. }
  unfold confidence_value. split.
  - apply round_nonneg. Lqa.lra.
  - apply (round_le_fix _ _ R100). Lqa.lra.
Qed.

Lemma confidence_value_mono (a b : Q) : a <= b -> confidence_value a <= confidence_value b.
Proof.
  intros H. unfold confidence_value. apply round_mono.
  apply Qmult_le_compat_r; [|discriminate]. apply round_mono.
  apply Qmult_le_compat_r; [|discriminate]. apply round_mono. exact H.
Qed.

Lemma confidence_value_err (a : Q) : 0 <= a <= 1 # 2 ->
  Qabs (confidence_value a - a * 200) <= 1 # 1000.
Proof.
  intros Ha. destruct const_facts as (_ & _ & _ & _ & _ & _ & _ & _ & _ & _ & _ & _ & _ & _ & R1 & Rh & R100).
  assert (B1 : 0 <= round a <= 1 # 2).
  { split; [apply round_nonneg; apply Ha | apply (round_le_fix _ _ Rh); apply Ha]. }
  assert (B2 : 0 <= round (round a * 2) <= 1).
  { split; [apply round_nonneg; Lqa.lra | apply (round_le_fix _ _ R1); Lqa.lra]. }
  assert (E1 : Qabs (round a - a) <= 2 ^ (0 - 54)).
  { apply round_err; [apply Qabs_Qlt_condition; change (2 ^ 0) with 1; Lqa.lra | lia]. }
  assert (E2 : Qabs (round (round a * 2) - round a * 2) <= 2 ^ (1 - 54)).
  { apply round_err; [apply Qabs_Qlt_condition; change (2 ^ 1) with 2; Lqa.lra | lia]. }
  assert (E3 : Qabs (round (round (round a * 2) * 100) - round (round a * 2) * 100) <= 2 ^ (7 - 54)).
  { apply round_err; [apply Qabs_Qlt_condition; change (2 ^ 7) with 128; Lqa.lra | lia]. }
  change (2 ^ (0 - 54)) with (1 # 18014398509481984) in E1.
  change (2 ^ (1 - 54)) with (1 # 9007199254740992) in E2.
  change (2 ^ (7 - 54)) with (1 # 140737488355328) in E3.
  apply Qabs_Qle_condition in E1 as [E1a E1b]. apply Qabs_Qle_condition in E2 as [E2a E2b].
  apply Qabs_Qle_condition in E3 as [E3a E3b].
  apply Qabs_Qle_condition. unfold confidence_value. Lqa.lra.
Qed.

Lemma confidence_formula (p : spec_float) :
  probability_ok p = true ->
  calculate_confidence p = Some (Z.max 50 (Qfloor (confidence_value (Qabs (val p - (1 # 2)))))).
Proof.
  intros Hp. pose proof (probability_ok_spec p Hp) as (_ & _ & P0 & P1).
  destruct (confidence_steps p Hp) as [F E].
  assert (Hd : 0 <= Qabs (val p - (1 # 2)) <= 1 # 2).
  { split; [apply Qabs_nonneg | apply Qabs_Qle_condition; Lqa.lra]. }
  pose proof (confidence_value_range _ Hd) as [H0 H1].
  unfold calculate_confidence. cbv zeta.
  rewrite float_int_spec by (exact F || (rewrite E; exact H0)).
  rewrite (Qfloor_comp _ _ E).
  pose proof (floor_le_Z _ 100 H1). f_equal. lia.
Qed.

Lemma risk_cases (p : spec_float) :
  valid_binary prec emax p = true -> is_finite p = true ->
  (calculate_risk_level p = "low" /\ val p < val (lit 3 10)) \/
  (calculate_risk_level p = "medium" /\ val (lit 3 10) <= val p /\ val p < val (lit 7 10)) \/
  (calculate_risk_level p = "high" /\ val (lit 7 10) <= val p).
Proof.
  intros Vp Fp.
  destruct const_facts as (_ & _ & _ & _ & _ & _ & _ & _ & _ & _ & V3 & F3 & V7 & F7 & _).
  pose proof (fltb_spec p (lit 3 10) Vp V3 Fp F3) as H3.
  pose proof (fltb_spec p (lit 7 10) Vp V7 Fp F7) as H7.
  unfold calculate_risk_level.
  destruct (SFltb p (lit 3 10)).
  - left. split; [reflexivity|]. now apply H3.
  - right. assert (Hn : ~ val p < val (lit 3 10)) by (intros Hc; apply H3 in Hc; discriminate).
    apply Qnot_lt_le in Hn. destruct (SFltb p (lit 7 10)).
    + left. split; [reflexivity|]. split; [exact Hn|]. now apply H7.
    + right. split; [reflexivity|].
      apply Qnot_lt_le. intros Hc. apply H7 in Hc. discriminate.
Qed.

Lemma threshold_values :
  Qfloor (health_value (val (lit 3 10))) = 70%Z /\ Qfloor (health_value (val (lit 7 10))) = 30%Z /\
  Qfloor (confidence_value (Qabs (val (lit 3 10) - (1 # 2)))) = 40%Z /\
  Qfloor (confidence_value (Qabs (val (lit 7 10) - (1 # 2)))) = 39%Z.
Proof. vm_compute. repeat split. Qed.

(** The literal 0.3 is the double 5404319552844595 * 2^-54, just below 3/10;
    the rational model [Scores.calculate_risk_level] puts that double in the
    low band, the code in the medium band. *)
Example literal_three_tenths :
  lit 3 10 = S754_finite false 5404319552844595 (-54) /\
  calculate_risk_level (lit 3 10) = "medium" /\ Scores.calculate_risk_level (val (lit 3 10)) = "low".
Proof. vm_compute. repeat split. Qed.

Example scores_samples :
  calculate_health_score (lit 8 10) = Some 19%Z /\ calculate_health_score (lit 88 100) = Some 12%Z /\
  calculate_confidence (lit 95 100) = Some 89%Z /\ calculate_confidence (lit 17 100) = Some 65%Z /\
  calculate_confidence (lit 5 100) = Some 90%Z.
Proof. vm_compute. repeat split. Qed.

End Scores64.

(* ------------------------------------------------------------------ *)
(** ** The classifier gateway, [PredictionModel]

    The pickled classifier and scaler are opaque objects of the training
    pipeline.  They are modelled by the methods [predict] calls on them;
    [None] from a method is an exception raised inside it, and a [None]
    method field is an attribute [hasattr] does not find. *)

Module Gateway.
Import Reals Lra.
Local Open Scope R_scope.

Record Scaler := mkScaler {
  transform : list R -> option (list R)
}.

Record Classifier := mkClassifier {
  clf_predict : list R -> option Z;                         (** [int(model.predict(X)[0])] *)
  clf_predict_proba : option (list R -> option (list R));    (** row 0 of [predict_proba(X)] *)
  clf_decision_function : option (list R -> option R)       (** [decision_function(X)[0]] *)
}.

Record PredictionModel := mkPredictionModel {
  model : option Classifier;
  scaler : option Scaler;
  is_loaded : bool;
  model_path : option string;
  scaler_path : option string
}.

(** [PredictionModel()] *)
Definition init : PredictionModel := mkPredictionModel None None false None None.

(** The message kinds of [PredictionModelError]. *)
Inductive PredictionModelError :=
| ModelFileNotFound (path : string)
| ScalerFileNotFound (path : string)
| ErrorLoadingModel
| ModelNotLoaded
| ErrorMakingPrediction.

Inductive result (A : Type) :=
| Ok (a : A)
| Err (e : PredictionModelError).
Arguments Ok {A} a.
Arguments Err {A} e.

(** Python's [try: ... except Exception]: an exception inside the block
    becomes the given [PredictionModelError]. *)
Definition try_except {A} (body : option A) (e : PredictionModelError) : result A :=
  match body with Some a => Ok a | None => Err e end.

Definition sigmoid (x : R) : R := 1 / (1 + exp (- x)).

(** The body of the [try] block of [predict]. *)
Definition predict_body (m : option Classifier) (sc : option Scaler) (features : list R)
  : option (Z * R) :=
  sc ← sc;
  features_scaled ← transform sc features;
  m ← m;
  prediction ← clf_predict m features_scaled;
  probability ←
    match clf_predict_proba m with
    | Some predict_proba => row ← predict_proba features_scaled; row !! 1%nat
    | None =>
        match clf_decision_function m with
        | Some decision_function =>
            decision ← decision_function features_scaled; Some (sigmoid decision)
        | None => Some (IZR prediction)
        end
    end;
  Some (prediction, probability).

Definition predict (self : PredictionModel) (features : list R) : result (Z * R) :=
  if negb (is_loaded self) then Err ModelNotLoaded
  else try_except (predict_body (model self) (scaler self) features) ErrorMakingPrediction.

(** The process environment and file system [load_model] reads. *)
Record Env := mkEnv {
  getenv : string -> option string;
  base_dir : string;                               (** [Path(__file__).parent.parent.parent.parent] *)
  path_exists : string -> bool;
  pickle_load_model : string -> option Classifier; (** [open] and [pickle.load] *)
  pickle_load_scaler : string -> option Scaler
}.

Definition resolve_path (env : Env) (arg : option string) (var file : string) : string :=
  match arg with
  | Some p => p
  | None =>
      match getenv env var with
      | Some p => p
      | None => String.append (base_dir env) (String.append "/ml_training/models/" file)
      end
  end.

Definition set_paths (self : PredictionModel) (mp sp : string) : PredictionModel :=
  mkPredictionModel (model self) (scaler self) (is_loaded self) (Some mp) (Some sp).
Definition set_model (self : PredictionModel) (m : Classifier) : PredictionModel :=
  mkPredictionModel (Some m) (scaler self) (is_loaded self) (model_path self) (scaler_path self).
Definition set_scaler (self : PredictionModel) (sc : Scaler) : PredictionModel :=
  mkPredictionModel (model self) (Some sc) (is_loaded self) (model_path self) (scaler_path self).
Definition set_loaded (self : PredictionModel) : PredictionModel :=
  mkPredictionModel (model self) (scaler self) true (model_path self) (scaler_path self).

(** [load_model]: the object after the call, and whether it raised. *)
Definition load_model (env : Env) (self : PredictionModel) (model_path scaler_path : option string)
  : PredictionModel * result unit :=
  let mp := resolve_path env model_path "MODEL_PATH" "parkinson_voice_model.pkl" in
  let sp := resolve_path env scaler_path "SCALER_PATH" "scaler.pkl" in
  let self := set_paths self mp sp in
  if negb (path_exists env mp) then (self, Err (ModelFileNotFound mp))
  else if negb (path_exists env sp) then (self, Err (ScalerFileNotFound sp))
  else
    match pickle_load_model env mp with
    | None => (self, Err ErrorLoadingModel)
    | Some m =>
        let self := set_model self m in
        match pickle_load_scaler env sp with
        | None => (self, Err ErrorLoadingModel)
        | Some sc => (set_loaded (set_scaler self sc), Ok tt)
        end
    end.

(** The spec's three-tier probability (section 4.4), written from its
    words: native probability of class 1, else the logistic of the
    decision value, else the class label as a float. *)
Definition spec_probability (m : Classifier) (xs : list R) (label : Z) : option R :=
  match clf_predict_proba m, clf_decision_function m with
  | Some predict_proba, _ => row ← predict_proba xs; row !! 1%nat
  | None, Some decision_function => option_map sigmoid (decision_function xs)
  | None, None => Some (IZR label)
  end.

(** The classifier's documented interface: labels 0 (healthy) and
    1 (Parkinson's), [predict_proba] rows of probabilities. *)
Definition classifier_contract (m : Classifier) : Prop :=
  (forall xs c, clf_predict m xs = Some c -> c = 0%Z \/ c = 1%Z) /\
  (forall pp xs row, clf_predict_proba m = Some pp -> pp xs = Some row ->
     Forall (fun q => 0 <= q <= 1) row).

(** Concrete artifacts used to evaluate the gateway: a classifier that
    labels every input 0 and has neither [predict_proba] nor
    [decision_function], a scaler that passes any array through, a
    loaded gateway holding both, and an environment in which both files
    exist, the model deserialises and the scaler does not. *)
Definition constant_classifier : Classifier := mkClassifier (fun _ => Some 0%Z) None None.
Definition logistic_classifier : Classifier :=
  mkClassifier (fun _ => Some 0%Z) None (Some (fun _ => Some 0)).
Definition identity_scaler : Scaler := mkScaler Some.
Definition lenient_gateway : PredictionModel :=
  mkPredictionModel (Some constant_classifier) (Some identity_scaler) true None None.
Definition logistic_gateway : PredictionModel :=
  mkPredictionModel (Some logistic_classifier) (Some identity_scaler) true None None.
(** A scaler fitted on 39 features, rejecting other widths as sklearn's
    does. *)
Definition strict_scaler : Scaler :=
  mkScaler (fun xs => if (length xs =? 39)%nat then Some xs else None).
Definition strict_gateway : PredictionModel :=
  mkPredictionModel (Some constant_classifier) (Some strict_scaler) true None None.
Definition env_bad_scaler : Env :=
  mkEnv (fun _ => None) "/srv/app" (fun _ => true) (fun _ => Some constant_classifier) (fun _ => None).

Lemma sigmoid_bounds (x : R) : 0 < sigmoid x < 1.
Proof.
  unfold sigmoid. pose proof (exp_pos (- x)) as He. split.
  - apply Rdiv_lt_0_compat; lra.
  - apply (Rmult_lt_reg_r (1 + exp (- x))); [lra|].
    unfold Rdiv. rewrite Rmult_assoc, Rinv_l by lra. lra.
Qed.

End Gateway.

(* ------------------------------------------------------------------ *)
(** ** Audio validation, [AudioService.validate_audio] *)

Module Validation.
Local Open Scope Q_scope.

Definition ALLOWED_FORMATS : list string := ["wav"; "webm"; "mp3"; "ogg"].
Definition MAX_FILE_SIZE_MB : Q := 10.
Definition MIN_DURATION_SEC : Q := 15.
Definition MAX_DURATION_SEC : Q := 60.

(** What [validate_audio] asks of the operating system and of
    [librosa.load(file_path, sr=None)]: the number of decoded samples and
    the native sample rate, or [None] when decoding raises. *)
Record AudioFS := mkAudioFS {
  af_exists : string -> bool;
  af_getsize : string -> Z;
  af_load : string -> option (nat * Z)
}.

Fixpoint ascii_list_eqb (a b : list ascii) : bool :=
  match a, b with
  | [], [] => true
  | x :: xs, y :: ys => Ascii.eqb x y && ascii_list_eqb xs ys
  | _, _ => false
  end.

Fixpoint split_slash (cs : list ascii) (cur : list ascii) : list (list ascii) :=
  match cs with
  | [] => [cur]
  | c :: r => if Ascii.eqb c "/"%char then cur :: split_slash r [] else split_slash r (cur ++ [c])
  end.

(** [PurePosixPath(p).name]: the last component, empty and [.] parts dropped. *)
Definition path_name (p : string) : list ascii :=
  let parts := filter (fun part => negb (ascii_list_eqb part []) && negb (ascii_list_eqb part ["."%char]))
                      (split_slash (list_ascii_of_string p) []) in
  List.last parts [].

(** [name.rfind('.')], [None] for [-1]. *)
Fixpoint rfind_dot (cs : list ascii) (i : nat) (found : option nat) : option nat :=
  match cs with
  | [] => found
  | c :: r => rfind_dot r (S i) (if Ascii.eqb c "."%char then Some i else found)
  end.

(** [PurePath.suffix] (Python 3.11): [name[i:]] when [0 < i < len(name) - 1]. *)
Definition suffix (name : list ascii) : list ascii :=
  match rfind_dot name 0 None with
  | Some i => if (0 <? i)%nat && (i <? length name - 1)%nat then skipn i name else []
  | None => []
  end.

Definition ascii_lower (c : ascii) : ascii :=
  let n := nat_of_ascii c in
  if (65 <=? n)%nat && (n <=? 90)%nat then ascii_of_nat (n + 32) else c.

Fixpoint lstrip_dot (cs : list ascii) : list ascii :=
  match cs with
  | c :: r => if Ascii.eqb c "."%char then lstrip_dot r else cs
  | [] => []
  end.

(** [Path(file_path).suffix.lower().lstrip('.')] *)
Definition file_ext (file_path : string) : string :=
  string_of_list_ascii (lstrip_dot (map ascii_lower (suffix (path_name file_path)))).

Record Report := mkReport {
  valid : bool;
  duration : Q;
  sample_rate : Z;
  file_size_mb : Q;
  format : string
}.

(** The kinds of [AudioValidationError] message. *)
Inductive AudioValidationError :=
| NotFound (path : string)
| TooLarge (mb : Q)
| UnsupportedFormat (ext : string)
| ReadError
| TooShort (d : Q)
| TooLong (d : Q).

Inductive vresult :=
| VOk (r : Report)
| VErr (e : AudioValidationError).

(** The [try] block: decode, then the duration checks. A sample rate of
    0 makes [librosa.get_duration] divide by zero, which the [except]
    turns into a read error. *)
Definition read_and_check_duration (fs : AudioFS) (file_path : string) (mb : Q) (ext : string)
  : vresult :=
  match af_load fs file_path with
  | None => VErr ReadError
  | Some (n, sr) =>
      if (sr =? 0)%Z then VErr ReadError
      else
        let duration := inject_Z (Z.of_nat n) / inject_Z sr in
        if Qlt_bool duration MIN_DURATION_SEC then VErr (TooShort duration)
        else if Qlt_bool MAX_DURATION_SEC duration then VErr (TooLong duration)
        else VOk (mkReport true duration sr mb ext)
  end.

(** [os.path.getsize(file_path) / (1024 * 1024)] *)
Definition getsize_mb (fs : AudioFS) (file_path : string) : Q :=
  inject_Z (af_getsize fs file_path) / inject_Z (1024 * 1024).

Definition validate_audio (fs : AudioFS) (file_path : string) : vresult :=
  if negb (af_exists fs file_path) then VErr (NotFound file_path)
  else
    let mb := getsize_mb fs file_path in
    if Qlt_bool MAX_FILE_SIZE_MB mb then VErr (TooLarge mb)
    else
      let ext := file_ext file_path in
      if negb (existsb (String.eqb ext) ALLOWED_FORMATS) then VErr (UnsupportedFormat ext)
      else read_and_check_duration fs file_path mb ext.

(** The errors raised after the extension check. *)
Definition is_late_error (e : AudioValidationError) : Prop :=
  e = ReadError \/ (exists d, e = TooShort d) \/ (exists d, e = TooLong d).

(** An upload directory holding an empty [.wav] file that librosa cannot
    decode. *)
Definition fs_empty_wav : AudioFS := mkAudioFS (fun _ => true) (fun _ => 0%Z) (fun _ => None).

Example ext_upper : file_ext "uploads/Voice.Sample.WAV" = "wav".
Proof. reflexivity. Qed.
Example ext_hidden : file_ext "/tmp/.wav" = "".
Proof. reflexivity. Qed.

End Validation.

(* ------------------------------------------------------------------ *)
(** ** Python's [random] module (CPython 3.11, [_randommodule.c] and
    [random.py]): the Mersenne Twister that [_calculate_vocal_metrics]
    seeds and draws from.  The generator state is the module's global
    state, passed explicitly. *)

Module PyRandom.
Local Open Scope Z_scope.

Definition N : nat := 624.
Definition M : nat := 397.
Definition MATRIX_A : Z := 0x9908b0df.
Definition UPPER_MASK : Z := 0x80000000.
Definition LOWER_MASK : Z := 0x7fffffff.

(** [uint32_t] wrap-around. *)
Definition u32 (x : Z) : Z := Z.land x 0xffffffff.

Record RState := mkRState { mt : list Z; index : nat }.

Definition mt_get (s : list Z) (i : nat) : Z := default 0 (s !! i).

(** [init_genrand] *)
Fixpoint init_genrand_go (fuel : nat) (prev : Z) (mti : nat) : list Z :=
  match fuel with
  | O => []
  | S f =>
      let x := u32 (1812433253 * Z.lxor prev (Z.shiftr prev 30) + Z.of_nat mti) in
      x :: init_genrand_go f x (S mti)
  end.

Definition init_genrand (s : Z) : list Z := u32 s :: init_genrand_go (N - 1) (u32 s) 1.

(** The two loops of [init_by_array]: [(mt, i, j)] threaded through. *)
Fixpoint init_by_array_loop1 (k : nat) (key : list Z) (st : list Z * nat * nat) : list Z * nat * nat :=
  match k with
  | O => st
  | S k' =>
      let '(s, i, j) := st in
      let prev := mt_get s (i - 1) in
      let v := u32 (Z.lxor (mt_get s i) (u32 (Z.lxor prev (Z.shiftr prev 30) * 1664525))
                    + mt_get key j + Z.of_nat j) in
      let s := <[i := v]> s in
      let i := S i in
      let j := S j in
      let '(s, i) := if (N <=? i)%nat then (<[0%nat := mt_get s (N - 1)]> s, 1%nat) else (s, i) in
      let j := if (length key <=? j)%nat then 0%nat else j in
      init_by_array_loop1 k' key (s, i, j)
  end.

Fixpoint init_by_array_loop2 (k : nat) (st : list Z * nat) : list Z * nat :=
  match k with
  | O => st
  | S k' =>
      let '(s, i) := st in
      let prev := mt_get s (i - 1) in
      let v := u32 (Z.lxor (mt_get s i) (u32 (Z.lxor prev (Z.shiftr prev 30) * 1566083941))
                    - Z.of_nat i) in
      let s := <[i := v]> s in
      let i := S i in
      let '(s, i) := if (N <=? i)%nat then (<[0%nat := mt_get s (N - 1)]> s, 1%nat) else (s, i) in
      init_by_array_loop2 k' (s, i)
  end.

Definition init_by_array (key : list Z) : RState :=
  let s := init_genrand 19650218 in
  let '(s, i, _) := init_by_array_loop1 (Nat.max N (length key)) key (s, 1%nat, 0%nat) in
  let '(s, _) := init_by_array_loop2 (N - 1) (s, i) in
  mkRState (<[0%nat := UPPER_MASK]> s) N.

(** The 32-bit words of [abs(n)], least significant first; [[0]] for 0. *)
Fixpoint key_words (fuel : nat) (n : Z) : list Z :=
  match fuel with
  | O => []
  | S f => if n =? 0 then [] else u32 n :: key_words f (Z.shiftr n 32)
  end.

(** [random.seed(n)] for an integer [n]. *)
Definition seed (n : Z) : RState :=
  let a := Z.abs n in
  let key := key_words (Z.to_nat (Z.log2_up (a + 1))) a in
  init_by_array (match key with [] => [0] | _ => key end).

(** The twist of [genrand_uint32], in place. *)
Definition mag01 (y : Z) : Z := if Z.testbit y 0 then MATRIX_A else 0.

Definition twist_step (s : list Z) (kk : nat) : list Z :=
  let y := Z.lor (Z.land (mt_get s kk) UPPER_MASK)
                 (Z.land (mt_get s ((kk + 1) mod N)) LOWER_MASK) in
  <[kk := Z.lxor (Z.lxor (mt_get s ((kk + M) mod N)) (Z.shiftr y 1)) (mag01 y)]> s.

Definition twist (s : list Z) : list Z := fold_left twist_step (seq 0 N) s.

Definition temper (y : Z) : Z :=
  let y := Z.lxor y (Z.shiftr y 11) in
  let y := Z.lxor y (Z.land (u32 (Z.shiftl y 7)) 0x9d2c5680) in
  let y := Z.lxor y (Z.land (u32 (Z.shiftl y 15)) 0xefc60000) in
  u32 (Z.lxor y (Z.shiftr y 18)).

Definition genrand_uint32 (st : RState) : Z * RState :=
  let st := if (N <=? index st)%nat then mkRState (twist (mt st)) 0 else st in
  (temper (mt_get (mt st) (index st)), mkRState (mt st) (S (index st))).

(** [getrandbits(k)] for [0 < k <= 32], the only branch [_randbelow(5)]
    reaches. *)
Definition getrandbits (k : Z) (st : RState) : Z * RState :=
  let '(y, st) := genrand_uint32 st in (Z.shiftr y (32 - k), st).

(** [_randbelow_with_getrandbits(n)]: draw [n.bit_length()] bits until
    the value is below [n].  The loop need not terminate for an arbitrary
    generator, so it is a relation. *)
Inductive randbelow (n : Z) : RState -> Z -> RState -> Prop :=
| randbelow_accept st r st' :
    getrandbits (Z.log2 n + 1) st = (r, st') -> r < n -> randbelow n st r st'
| randbelow_retry st r st' r2 st'' :
    getrandbits (Z.log2 n + 1) st = (r, st') -> n <= r ->
    randbelow n st' r2 st'' -> randbelow n st r2 st''.

(** [randint(a, b)] = [randrange(a, b + 1)] = [a + _randbelow(b - a + 1)]. *)
Definition randint (a b : Z) (st : RState) (r : Z) (st' : RState) : Prop :=
  exists r0, randbelow (b - a + 1) st r0 st' /\ r = a + r0.

(** The same loop, run with a bound on the number of draws. *)
Fixpoint randbelow_fuel (fuel : nat) (n : Z) (st : RState) : option (Z * RState) :=
  match fuel with
  | O => None
  | S f =>
      let '(r, st') := getrandbits (Z.log2 n + 1) st in
      if r <? n then Some (r, st') else randbelow_fuel f n st'
  end.

Definition randint_fuel (fuel : nat) (a b : Z) (st : RState) : option (Z * RState) :=
  option_map (fun '(r, st') => (a + r, st')) (randbelow_fuel fuel (b - a + 1) st).

End PyRandom.

(* ------------------------------------------------------------------ *)
(** ** [PredictionService._calculate_vocal_metrics] *)

Module VocalMetrics.
Import PyRandom.
Local Open Scope Q_scope.

(** Python's [min(a, b)] and [max(a, b)]: the first argument unless the
    second is strictly smaller (larger). *)
Definition py_min (a b : Q) : Q := if Qlt_bool b a then b else a.
Definition py_max (a b : Q) : Q := if Qlt_bool a b then b else a.

Record Metric := mkMetric { value : Z; trend : Z }.

Record VocalMetrics := mkVocalMetrics {
  pitchStability : Metric;
  voiceClarity : Metric;
  breathControl : Metric;
  consistency : Metric
}.

(** The four clamped sub-scores, before [int()]. *)
Definition sub_scores (features : gmap string Q) : Q * Q * Q * Q :=
  let pitch_std := default 0 (features !! "pitch_std") in
  let jitter := default 0 (features !! "jitter") in
  let shimmer := default 0 (features !! "shimmer") in
  let hnr := default 0 (features !! "hnr") in
  let pitch_stability := py_max 0 (py_min 100 (100 - pitch_std * 10)) in
  let voice_clarity := py_max 0 (py_min 100 (hnr * 5)) in
  let breath_control := py_max 0 (py_min 100 (100 - shimmer * 1000)) in
  let consistency := py_max 0 (py_min 100 (100 - jitter * 10)) in
  (pitch_stability, voice_clarity, breath_control, consistency).

Definition assemble (features : gmap string Q) (t1 t2 t3 t4 : Z) : VocalMetrics :=
  let '(ps, vc, bc, co) := sub_scores features in
  mkVocalMetrics (mkMetric (Scores.py_int ps) t1) (mkMetric (Scores.py_int vc) t2)
                 (mkMetric (Scores.py_int bc) t3) (mkMetric (Scores.py_int co) t4).

(** [random.seed(int(health_score))] and four [random.randint(-2, 2)]
    draws, from the global generator state [st] to the final one. *)
Inductive _calculate_vocal_metrics (features : gmap string Q) (health_score : Z) (st : RState)
  : VocalMetrics -> RState -> Prop :=
| calculate_vocal_metrics_run t1 t2 t3 t4 s1 s2 s3 s4 :
    randint (-2) 2 (seed health_score) t1 s1 ->
    randint (-2) 2 s1 t2 s2 ->
    randint (-2) 2 s2 t3 s3 ->
    randint (-2) 2 s3 t4 s4 ->
    _calculate_vocal_metrics features health_score st (assemble features t1 t2 t3 t4) s4.

(** Executable version, with a bound on the draws of each loop. *)
Definition calculate_vocal_metrics_fuel (fuel : nat) (features : gmap string Q) (health_score : Z)
  : option (VocalMetrics * RState) :=
  '(t1, s1) ← randint_fuel fuel (-2) 2 (seed health_score);
  '(t2, s2) ← randint_fuel fuel (-2) 2 s1;
  '(t3, s3) ← randint_fuel fuel (-2) 2 s2;
  '(t4, s4) ← randint_fuel fuel (-2) 2 s3;
  Some (assemble features t1 t2 t3 t4, s4).

Lemma randbelow_fuel_sound fuel n st r st' :
  randbelow_fuel fuel n st = Some (r, st') -> randbelow n st r st'.
Proof.
  revert st. induction fuel as [|f IH]; intros st H; [discriminate|].
  cbn [randbelow_fuel] in H. destruct (getrandbits (Z.log2 n + 1) st) as [r0 s0] eqn:E.
  destruct (Z.ltb_spec r0 n) as [Hlt|Hge].
  - injection H as <- <-. now apply randbelow_accept.
  - eapply randbelow_retry; [exact E|exact Hge|]. now apply IH.
Qed.

Lemma randint_fuel_sound fuel a b st r st' :
  randint_fuel fuel a b st = Some (r, st') -> randint a b st r st'.
Proof.
  unfold randint_fuel, randint. intros H.
  destruct (randbelow_fuel fuel (b - a + 1) st) as [[r0 s0]|] eqn:E; [|discriminate].
  simpl in H. injection H as <- <-. exists r0. split; [|reflexivity].
  now apply (randbelow_fuel_sound fuel).
Qed.

Lemma calculate_vocal_metrics_fuel_sound fuel features hs st vm st' :
  calculate_vocal_metrics_fuel fuel features hs = Some (vm, st') ->
  _calculate_vocal_metrics features hs st vm st'.
Proof.
  unfold calculate_vocal_metrics_fuel. intros H.
  destruct (randint_fuel fuel (-2) 2 (seed hs)) as [[t1 s1]|] eqn:E1; [|discriminate]; simpl in H.
  destruct (randint_fuel fuel (-2) 2 s1) as [[t2 s2]|] eqn:E2; [|discriminate]; simpl in H.
  destruct (randint_fuel fuel (-2) 2 s2) as [[t3 s3]|] eqn:E3; [|discriminate]; simpl in H.
  destruct (randint_fuel fuel (-2) 2 s3) as [[t4 s4]|] eqn:E4; [|discriminate]; simpl in H.
  injection H as <- <-.
  apply (calculate_vocal_metrics_run features hs st t1 t2 t3 t4 s1 s2 s3 s4);
    eapply randint_fuel_sound; eassumption.
Qed.

Example vocal_metrics_80 :
  option_map (fun '(vm, _) => map trend [pitchStability vm; voiceClarity vm; breathControl vm; consistency vm])
    (calculate_vocal_metrics_fuel 20 ∅ 80) = Some [0; 1; 2; 1]%Z.
Proof. vm_compute. reflexivity. Qed.

End VocalMetrics.

(* ------------------------------------------------------------------ *)
(** ** [PredictionService.generate_prediction]'s result,
    [_calculate_pattern_data] and [create_result_document]

    The result dictionary of [generate_prediction] is a record; its
    [features] entry (the output of [format_features_for_display]) has
    the type [D]. *)

Module ResultDocument.
Local Open Scope Z_scope.

Record PredictionResult (D : Type) := mkPredictionResult {
  prediction : Z;
  probability : Q;
  risk_level : string;
  status : string;
  confidence : Z;
  health_score : Z;
  features : D;
  vocal_metrics : VocalMetrics.VocalMetrics
}.
Arguments mkPredictionResult {D}.
Arguments prediction {D}. Arguments probability {D}. Arguments risk_level {D}.
Arguments status {D}. Arguments confidence {D}. Arguments health_score {D}.
Arguments features {D}. Arguments vocal_metrics {D}.

Definition _calculate_pattern_data {D} (prediction_result : PredictionResult D) : list Z :=
  let health_score := health_score prediction_result in
  if 80 <=? health_score then [80; 15; 5]
  else if 60 <=? health_score then [60; 30; 10]
  else [40; 35; 25].

Definition labels : gmap string string :=
  <["alert" := "Consultation Advised"]> (<["warning" := "Attention Recommended"]>
    (<["normal" := "Healthy Voice Patterns"]> ∅)).

Definition descriptions : gmap string string :=
  <["alert" := "Significant voice pattern deviations detected. Consult a healthcare professional for further evaluation."]>
    (<["warning" := "Some voice patterns require attention. Consider implementing the recommendations below."]>
      (<["normal" := "Your voice analysis shows patterns within normal ranges. No significant anomalies detected."]> ∅)).

Record OverallResult := mkOverallResult { or_status : string; label : string; description : string }.
Record RecordingInfo := mkRecordingInfo {
  info_id : string; info_timestamp : string; info_duration : Q; environment : string }.
Record Charts := mkCharts { pattern_data : list Z; trend_labels : list string; trend_data : list Z }.
Record MlPrediction := mkMlPrediction { prediction_class : Z; ml_probability : Q }.

Record ResultDoc (D : Type) := mkResultDoc {
  recording_id : string;
  user_id : string;
  timestamp : string;
  healthScore : Z;
  overallResult : OverallResult;
  doc_confidence : Z;
  severity : string;
  metrics : VocalMetrics.VocalMetrics;
  recordingInfo : RecordingInfo;
  charts : Charts;
  raw_features : D;
  ml_prediction : MlPrediction;
  created_at : string                     (** [datetime.utcnow()] *)
}.
Arguments mkResultDoc {D}.
Arguments recording_id {D}. Arguments user_id {D}. Arguments timestamp {D}.
Arguments healthScore {D}. Arguments overallResult {D}. Arguments doc_confidence {D}.
Arguments severity {D}. Arguments metrics {D}. Arguments recordingInfo {D}.
Arguments charts {D}. Arguments raw_features {D}. Arguments ml_prediction {D}.
Arguments created_at {D}.

(** [create_result_document]; [now] is the value of [datetime.utcnow()]. *)
Definition create_result_document {D} (prediction_result : PredictionResult D)
    (user_id recording_id timestamp : string) (duration : Q) (environment : string) (now : string)
  : ResultDoc D :=
  let status := status prediction_result in
  mkResultDoc recording_id user_id timestamp (health_score prediction_result)
    (mkOverallResult status (default "Analysis Complete" (labels !! status))
       (default "Voice analysis completed successfully." (descriptions !! status)))
    (confidence prediction_result) (risk_level prediction_result)
    (vocal_metrics prediction_result)
    (mkRecordingInfo recording_id timestamp duration environment)
    (mkCharts (_calculate_pattern_data prediction_result) [] [])
    (features prediction_result)
    (mkMlPrediction (prediction prediction_result) (probability prediction_result))
    now.

End ResultDocument.

(* ------------------------------------------------------------------ *)
(** ** The upload endpoint, [recordings.submit_recording]

    The file system, the two MongoDB collections and the outcome of
    [generate_prediction] are the world the handler acts on; the
    collections are lists of the inserted documents, in order. *)

Module Submit.
Import ResultDocument.
Local Open Scope Z_scope.

(** Python's [str] of an [int]. *)
Definition py_str_Z (z : Z) : string :=
  if z <? 0 then String.append "-" (py_str_nat (Z.to_nat (- z))) else py_str_nat (Z.to_nat z).

(** [os.path.join(a, b)] ([posixpath.join] with two arguments). *)
Definition ends_with_slash (a : string) : bool :=
  match String.get (String.length a - 1) a with Some c => Ascii.eqb c "/"%char | None => false end.

Definition py_path_join (a b : string) : string :=
  if String.prefix "/" b then b
  else if String.eqb a "" || ends_with_slash a then String.append a b
  else String.append a (String.append "/" b).

Definition UPLOAD_DIR : string := "backend/uploads".

Record RecordingDoc := mkRecordingDoc {
  rec_id : string;
  rec_user_id : string;
  filename : string;
  path : string;
  original_filename : string;
  rec_timestamp : string;
  rec_duration : Q;
  content_type : string;
  rec_status : string;
  validation : Validation.Report;
  rec_created_at : string
}.

(** The exceptions the handler tells apart. *)
Inductive Exc :=
| ExcAudio (e : Validation.AudioValidationError)
| ExcPrediction (e : Gateway.PredictionModelError)
| ExcOther.

(** [generate_prediction(file_location)]: a result or the exception it
    raises. *)
Inductive GenResult (D : Type) :=
| GOk (r : PredictionResult D)
| GErr (e : Exc).
Arguments GOk {D} r.
Arguments GErr {D} e.

Record World (D : Type) := mkWorld {
  files : gset string;
  recordings : list RecordingDoc;
  results : list (ResultDoc D)
}.
Arguments mkWorld {D}.
Arguments files {D}. Arguments recordings {D}. Arguments results {D}.

(** What the handler calls and does not define: the file write, the audio
    decoder and file sizes, [generate_prediction], and the two
    [insert_one] calls ([false]: the call raises). *)
Record Services (D : Type) := mkServices {
  save_ok : string -> bool;
  audio_fs : Validation.AudioFS;
  generate_prediction : string -> GenResult D;
  insert_recording : RecordingDoc -> bool;
  insert_result : ResultDoc D -> bool
}.
Arguments mkServices {D}.
Arguments save_ok {D}. Arguments audio_fs {D}. Arguments generate_prediction {D}.
Arguments insert_recording {D}. Arguments insert_result {D}.

(** The response: the success dictionary, an [HTTPException] with its
    status code and the detail prefix before [str(e)], or an exception
    raised before the [try] (the file write). *)
Inductive Response :=
| Success (recordingId : string) (status : string) (healthScore confidence : Z)
| HTTPException (status_code : Z) (detail_prefix : string) (e : Exc)
| Unhandled.

(** The three [except] clauses. *)
Definition handle (e : Exc) : Response :=
  match e with
  | ExcAudio _ => HTTPException 400 "" e
  | ExcPrediction _ => HTTPException 500 "Prediction error: " e
  | ExcOther => HTTPException 500 "Internal server error: " e
  end.

(** [validate_audio] sees the files of the world. *)
Definition world_fs {D} (svc : Services D) (w : World D) : Validation.AudioFS :=
  Validation.mkAudioFS (fun p => bool_decide (p ∈ files w))
    (Validation.af_getsize (audio_fs svc)) (Validation.af_load (audio_fs svc)).

(** [if os.path.exists(file_location): os.remove(file_location)] *)
Definition cleanup {D} (loc : string) (w : World D) : World D :=
  if bool_decide (loc ∈ files w) then mkWorld (files w ∖ {[loc]}) (recordings w) (results w) else w.

(** [f"{current_user['_id']}_{int(datetime.now().timestamp())}_{audio.filename}"] *)
Definition safe_filename (user : string) (now_ts : Z) (audio_filename : string) : string :=
  String.append user (String.append "_" (String.append (py_str_Z now_ts) (String.append "_" audio_filename))).

(** The world once [shutil.copyfileobj] has written the upload. *)
Definition saved_world {D} (w : World D) (file_location : string) : World D :=
  mkWorld ({[file_location]} ∪ files w) (recordings w) (results w).

(** [submit_recording]; [user] is [str(current_user['_id'])], [now_ts]
    [int(datetime.now().timestamp())], [recording_id] [str(ObjectId())],
    and [rec_now] and [res_now] the two [datetime.utcnow()] values. *)
Definition submit_recording {D} (svc : Services D) (w : World D)
    (audio_filename content_type : string) (timestamp : string) (duration : Q)
    (user : string) (now_ts : Z) (recording_id rec_now res_now : string) : World D * Response :=
  let safe_filename := safe_filename user now_ts audio_filename in
  let file_location := py_path_join UPLOAD_DIR safe_filename in
  if negb (save_ok svc file_location) then (w, Unhandled)
  else
    let w := saved_world w file_location in
    let fail w e := (cleanup file_location w, handle e) in
    match Validation.validate_audio (world_fs svc w) file_location with
    | Validation.VErr e => fail w (ExcAudio e)
    | Validation.VOk validation_result =>
        match generate_prediction svc file_location with
        | GErr e => fail w e
        | GOk prediction_result =>
            let recording_doc :=
              mkRecordingDoc recording_id user safe_filename file_location audio_filename
                timestamp duration content_type "processed" validation_result rec_now in
            if negb (insert_recording svc recording_doc) then fail w ExcOther
            else
              let w := mkWorld (files w) (recordings w ++ [recording_doc]) (results w) in
              let result_doc := create_result_document prediction_result user recording_id
                                  timestamp duration "Quiet Room" res_now in
              if negb (insert_result svc result_doc) then fail w ExcOther
              else (mkWorld (files w) (recordings w) (results w ++ [result_doc]),
                    Success recording_id (status prediction_result)
                      (health_score prediction_result) (confidence prediction_result))
        end
    end.

End Submit.

(* ------------------------------------------------------------------ *)
(** ** Concrete inputs *)

Module Samples.

(** Integer arithmetic standing in for floats, to evaluate the
    extraction on a concrete analysis ([flog10] and [fsqrt] are integer
    stand-ins). *)
#[export] Instance NpOps_Z : NpOps Z := {|
  fzero := 0%Z; fadd := Z.add; fsub := Z.sub; fmul := Z.mul; fdiv := Z.div;
  fabs := Z.abs; fsqrt := Z.sqrt; flog10 := Z.log2; of_nat := Z.of_nat; fltb := Z.ltb;
  f_minus_ten := (-10)%Z; f_eps := 0%Z
|}.

(** An analysis with no voiced frame: in every frame the bin of largest
    magnitude carries pitch 0. *)
Definition unvoiced_analysis : @Extraction.Analysis Z :=
  Extraction.mkAnalysis (fun i => [Z.of_nat i; 3%Z])
    [([0; 0]%Z, [1; 2]%Z); ([0; 5]%Z, [3; 1]%Z)]
    [1000; 1200]%Z [1; 2]%Z [4; 6; 5]%Z [1; 1]%Z.

(** [_calculate_vocal_metrics] with health score 80 on an empty feature
    dictionary. *)
Definition run80 : option (VocalMetrics.VocalMetrics * PyRandom.RState) :=
  VocalMetrics.calculate_vocal_metrics_fuel 20 ∅ 80.
Definition vm80 : VocalMetrics.VocalMetrics :=
  match run80 with Some (vm, _) => vm | None => VocalMetrics.assemble ∅ 0 0 0 0 end.
Definition st80 : PyRandom.RState :=
  match run80 with Some (_, s) => s | None => PyRandom.seed 0 end.

End Samples.

(* ------------------------------------------------------------------ *)
(** ** Further concrete inputs *)

Module MoreSamples.
Import Reals.

(** A 1 MB file that decodes to 1500 samples at 100 Hz: 15 s. *)
Definition fs_15s : Validation.AudioFS :=
  Validation.mkAudioFS (fun _ => true) (fun _ => 1048576%Z) (fun _ => Some (1500%nat, 100%Z)).

(** An environment in which both files exist and deserialise. *)
Definition env_good : Gateway.Env :=
  Gateway.mkEnv (fun _ => None) "/srv/app" (fun _ => true)
    (fun _ => Some Gateway.constant_classifier) (fun _ => Some Gateway.identity_scaler).

(** A feature dictionary with a pitch standard deviation of 3. *)
Definition features_std3 : gmap string Q := <["pitch_std" := 3%Q]> ∅.

Definition run80_std3 : option (VocalMetrics.VocalMetrics * PyRandom.RState) :=
  VocalMetrics.calculate_vocal_metrics_fuel 20 features_std3 80.
Definition vm80_std3 : VocalMetrics.VocalMetrics :=
  match run80_std3 with Some (vm, _) => vm | None => VocalMetrics.assemble ∅ 0 0 0 0 end.
Definition st80_std3 : PyRandom.RState :=
  match run80_std3 with Some (_, s) => s | None => PyRandom.seed 0 end.

(** An analysis whose first frame is voiced at pitch 120. *)
Definition voiced_analysis : @Extraction.Analysis Z :=
  Extraction.mkAnalysis (fun i => [Z.of_nat i; 3%Z])
    [([0; 120]%Z, [1; 5]%Z); ([0; 0]%Z, [3; 1]%Z)]
    [1000; 1200]%Z [1; 2]%Z [4; 6; 5]%Z [1; 1]%Z.

(** A [generate_prediction] result for a float probability, built as
    [generate_prediction] builds it (for a probability in [[0, 1]] both
    scores are defined; the default 0 is never taken in the samples). *)
Definition result_for (p : SpecFloat.spec_float) : ResultDocument.PredictionResult unit :=
  let risk_level := Scores64.calculate_risk_level p in
  ResultDocument.mkPredictionResult 0%Z (Float64.val p) risk_level (Scores.map_to_status risk_level)
    (default 0%Z (Scores64.calculate_confidence p)) (default 0%Z (Scores64.calculate_health_score p)) tt
    (VocalMetrics.assemble ∅ 0 0 0 0).

Definition empty_world : Submit.World unit := Submit.mkWorld ∅ [] [].

(** Services under which the upload of a 15 s clip is analysed and the
    [results] insert raises; and services whose decoder fails. *)
Definition svc_results_down : Submit.Services unit :=
  Submit.mkServices (fun _ => true) fs_15s (fun _ => Submit.GOk (result_for (Float64.lit 1 10)))
    (fun _ => true) (fun _ => false).
Definition svc_ok : Submit.Services unit :=
  Submit.mkServices (fun _ => true) fs_15s (fun _ => Submit.GOk (result_for (Float64.lit 1 10)))
    (fun _ => true) (fun _ => true).
Definition svc_undecodable : Submit.Services unit :=
  Submit.mkServices (fun _ => true) Validation.fs_empty_wav (fun _ => Submit.GOk (result_for (Float64.lit 1 10)))
    (fun _ => true) (fun _ => true).

Definition svc_model_not_loaded : Submit.Services unit :=
  Submit.mkServices (fun _ => true) fs_15s
    (fun _ => Submit.GErr (Submit.ExcPrediction Gateway.ModelNotLoaded))
    (fun _ => true) (fun _ => true).

End MoreSamples.

(* ================================================================== *)
(** * Claims *)

(** ** C10 *)

(** (C10) [FeatureExtractor._get_feature_names] and the [feature_order]
    list of [AudioService.features_to_array], kept as two copies in two
    modules, are the same list of 39 names in the same order. *)
Theorem feature_names_match_feature_order :
  FeatureExtractorNames._get_feature_names = AudioServiceOrder.feature_order /\
  FeatureExtractorNames.get_feature_count = 39 /\
  length AudioServiceOrder.feature_order = 39.
Proof. split; [|split]; vm_compute; reflexivity. Qed.

(** ** C1 *)

(** (C1) For every analysis of a decoded buffer, [features_to_array]
    applied to the dictionary built by [extract_features] has exactly 39
    entries, the named features in the documented order (13 MFCC means,
    13 MFCC stds, pitch mean/std/min/max, jitter, shimmer, spectral
    centroid mean/std, ZCR mean/std, RMS mean/std, HNR), every documented
    key present in the dictionary; with no voiced pitch frame the four
    pitch statistics and the jitter are 0.0. *)
Theorem features_to_array_extract_features {F : Type} `{NpOps F} (a : @Extraction.Analysis F) :
  let v := Extraction.features_to_array (Extraction.extract_features a) in
  length v = 39 /\
  v = map (fun key => default fzero (Extraction.extract_features a !! key)) documented_order /\
  Forall (fun key => is_Some (Extraction.extract_features a !! key)) documented_order /\
  v = Extraction.documented_vector a /\
  (Extraction.pitch_values a = [] -> firstn 5 (skipn 26 v) = [fzero; fzero; fzero; fzero; fzero]).
Proof.
  intros v. subst v.
  assert (Hord : AudioServiceOrder.feature_order = documented_order) by (vm_compute; reflexivity).
  split; [|split; [|split; [|split]]].
  - rewrite Extraction.features_to_array_extract. reflexivity.
  - unfold Extraction.features_to_array. now rewrite Hord.
  - unfold Extraction.extract_features.
    destruct (Extraction.pitch_values a) as [|p [|q ps]]; destruct (1 <? length (Extraction.rms a));
      repeat constructor; vm_compute; eexists; reflexivity.
  - apply Extraction.features_to_array_extract.
  - intros Hpv. rewrite Extraction.features_to_array_extract.
    unfold Extraction.documented_vector. rewrite Hpv. reflexivity.
Qed.

(** ** C5 *)


(** ** C3 *)

(** (C3, counterexample) At the float 0.999 the distance term evaluates to
    99.8 (up to rounding): the code's [int()] truncates it to 99, the spec's
    rounding gives 100; at 0.95 it evaluates to 89.99999999999999, giving 89
    against 90. *)
Lemma confidence_truncates_not_rounds :
  Scores64.calculate_confidence (Float64.lit 999 1000) = Some 99%Z /\
  Scores64.spec_confidence (Float64.lit 999 1000) = 100%Z /\
  Scores64.calculate_confidence (Float64.lit 95 100) = Some 89%Z /\
  Scores64.spec_confidence (Float64.lit 95 100) = 90%Z.
Proof. vm_compute. repeat split. Qed.

(** (C3, amended) For a float probability p in [[0, 1]], [calculate_confidence
    p] returns an integer c in [[50, 100]]: [int()] of the float value of
    [(|p - 0.5| * 2) * 100], floored at 50.  Since [int()] truncates and the
    float operations round, c lies within one of
    [max(50, floor(|p - 0.5| * 200))] computed exactly.  c is non-decreasing
    in [|p - 0.5|]; confidence(0.5) = 50 and confidence(0.0) =
    confidence(1.0) = 100. *)
Theorem confidence_truncated_distance (p q : SpecFloat.spec_float) :
  Scores64.probability_ok p = true -> Scores64.probability_ok q = true ->
  (exists c, Scores64.calculate_confidence p = Some c /\ (50 <= c <= 100)%Z /\
     (Z.max 50 (Qfloor (Qabs (Float64.val p - (1 # 2)) * 2 * 100) - 1) <= c <=
      Z.max 50 (Qfloor (Qabs (Float64.val p - (1 # 2)) * 2 * 100) + 1))%Z) /\
  ((Qabs (Float64.val p - (1 # 2)) <= Qabs (Float64.val q - (1 # 2)))%Q ->
   forall c c', Scores64.calculate_confidence p = Some c -> Scores64.calculate_confidence q = Some c' ->
   (c <= c')%Z) /\
  Scores64.calculate_confidence (Float64.lit 5 10) = Some 50%Z /\
  Scores64.calculate_confidence (Float64.of_Z 0) = Some 100%Z /\
  Scores64.calculate_confidence (Float64.of_Z 1) = Some 100%Z.
Proof.
  intros Hp Hq. split; [|split; [|vm_compute; repeat split]].
  - rewrite (Scores64.confidence_formula p Hp).
    pose proof (Scores64.probability_ok_spec p Hp) as (_ & _ & P0 & P1).
    set (a := Qabs (Float64.val p - (1 # 2))).
    assert (Ha : (0 <= a <= 1 # 2)%Q).
    { split; [apply Qabs_nonneg | apply Qabs_Qle_condition; Lqa.lra]. }
    pose proof (Scores64.confidence_value_range a Ha) as [R0 R1].
    pose proof (Scores64.confidence_value_err a Ha) as Err.
    assert (Close : (Qabs (Scores64.confidence_value a - a * 2 * 100) < 1)%Q).
    { assert (E : (Scores64.confidence_value a - a * 2 * 100 == Scores64.confidence_value a - a * 200)%Q)
        by ring.
      rewrite (Qabs_wd _ _ E). apply Qle_lt_trans with (1 # 1000); [exact Err | reflexivity]. }
    pose proof (Float64.floor_close _ _ Close) as Fc.
    pose proof (Float64.floor_le_Z _ 100 R1).
    eexists. split; [reflexivity|]. lia.
  - intros Hd c c' Ec Ec'.
    rewrite (Scores64.confidence_formula p Hp) in Ec. rewrite (Scores64.confidence_formula q Hq) in Ec'.
    injection Ec as <-. injection Ec' as <-.
    apply Z.max_le_compat_l. exact (Qfloor_resp_le _ _ (Scores64.confidence_value_mono _ _ Hd)).
Qed.

(** ** C4 *)

(** (C4, counterexample) At the float 0.004 the term [(1 - p) * 100]
    evaluates to 99.6 (up to rounding): the code's [int()] gives 99, the
    spec's rounding 100; at 0.8 it evaluates to 19.999999999999996, giving 19
    against 20. *)
Lemma health_score_truncates_not_rounds :
  Scores64.calculate_health_score (Float64.lit 4 1000) = Some 99%Z /\
  Scores64.spec_health_score (Float64.lit 4 1000) = 100%Z /\
  Scores64.calculate_health_score (Float64.lit 8 10) = Some 19%Z /\
  Scores64.spec_health_score (Float64.lit 8 10) = 20%Z.
Proof. vm_compute. repeat split. Qed.

(** (C4, amended) For a float probability p in [[0, 1]],
    [calculate_health_score p] returns an integer h in [[0, 100]]: [int()] of
    the float value of [(1 - p) * 100] (the clamp never binding).  Since
    [int()] truncates and the float operations round, h lies within one of
    [floor((1 - p) * 100)] computed exactly (at the float 0.88 it is 12 where
    the exact floor is 11).  health_score(0.0) = 100, health_score(1.0) = 0,
    and it is non-increasing in p. *)
Theorem health_score_truncated (p q : SpecFloat.spec_float) :
  Scores64.probability_ok p = true -> Scores64.probability_ok q = true ->
  (exists h, Scores64.calculate_health_score p = Some h /\ (0 <= h <= 100)%Z /\
     (Qfloor ((1 - Float64.val p) * 100) - 1 <= h <= Qfloor ((1 - Float64.val p) * 100) + 1)%Z) /\
  Scores64.calculate_health_score (Float64.of_Z 0) = Some 100%Z /\
  Scores64.calculate_health_score (Float64.of_Z 1) = Some 0%Z /\
  ((Float64.val p <= Float64.val q)%Q ->
   forall h h', Scores64.calculate_health_score p = Some h -> Scores64.calculate_health_score q = Some h' ->
   (h' <= h)%Z).
Proof.
  intros Hp Hq. split; [|split; [vm_compute; reflexivity|split; [vm_compute; reflexivity|]]].
  - rewrite (Scores64.health_formula p Hp).
    pose proof (Scores64.probability_ok_spec p Hp) as (_ & _ & Hv).
    pose proof (Scores64.health_value_range _ Hv) as [R0 R1].
    pose proof (Scores64.health_value_err _ Hv) as Err.
    assert (Close : (Qabs (Scores64.health_value (Float64.val p) - (1 - Float64.val p) * 100) < 1)%Q)
      by Lqa.lra.
    pose proof (Float64.floor_close _ _ Close) as Fc.
    pose proof (Float64.floor_le_Z _ 100 R1). pose proof (Float64.Z_le_floor _ 0 R0).
    eexists. split; [reflexivity|]. lia.
  - intros Hpq h h' Eh Eh'.
    rewrite (Scores64.health_formula p Hp) in Eh. rewrite (Scores64.health_formula q Hq) in Eh'.
    injection Eh as <-. injection Eh' as <-.
    apply Qfloor_resp_le. now apply Scores64.health_value_mono.
Qed.

(** ** C2 *)

Import Reals.

(** (C2) When [predict] returns, its probability is the classifier's
    class-1 [predict_proba] output if it has one, else the logistic
    [1/(1+e^-x)] of its [decision_function] value, else the class label
    as a float, computed on the scaled features; for a classifier meeting
    its documented interface (labels 0/1, probability rows in [[0, 1]])
    the probability lies in [[0, 1]]. *)
Theorem predict_probability_fallback (g : Gateway.PredictionModel) (m : Gateway.Classifier)
    (x : list R) (c : Z) (p : R) :
  Gateway.model g = Some m -> Gateway.classifier_contract m ->
  Gateway.predict g x = Gateway.Ok (c, p) ->
  (exists sc xs, Gateway.scaler g = Some sc /\ Gateway.transform sc x = Some xs /\
                 Gateway.clf_predict m xs = Some c /\ Gateway.spec_probability m xs c = Some p) /\
  (0 <= p <= 1)%R.
Proof.
  intros Hm [Hlab Hrow] Hp.
  unfold Gateway.predict, Gateway.try_except, Gateway.predict_body in Hp. rewrite Hm in Hp.
  destruct (Gateway.is_loaded g); [|discriminate]. simpl in Hp.
  destruct (Gateway.scaler g) as [sc|]; [|discriminate]. simpl in Hp.
  destruct (Gateway.transform sc x) as [xs|] eqn:Ex; [|discriminate]. simpl in Hp.
  destruct (Gateway.clf_predict m xs) as [c0|] eqn:Ec; [|discriminate]. simpl in Hp.
  unfold Gateway.spec_probability.
  destruct (Gateway.clf_predict_proba m) as [pp|] eqn:Epp.
  - destruct (pp xs) as [row|] eqn:Erow; [|discriminate]. simpl in Hp.
    destruct (row !! 1%nat) as [q|] eqn:Eq; [|discriminate]. simpl in Hp.
    injection Hp as <- <-. split.
    + exists sc, xs. rewrite Erow. simpl. auto.
    + pose proof (Hrow pp xs row eq_refl Erow) as Hall.
      rewrite Forall_lookup in Hall. exact (Hall 1%nat q Eq).
  - destruct (Gateway.clf_decision_function m) as [df|] eqn:Edf.
    + destruct (df xs) as [d|] eqn:Ed; [|discriminate]. simpl in Hp.
      injection Hp as <- <-. split.
      * exists sc, xs. rewrite Ed. simpl. auto.
      * pose proof (Gateway.sigmoid_bounds d). Lra.lra.
    + simpl in Hp. injection Hp as <- <-. split.
      * exists sc, xs. auto.
      * destruct (Hlab xs c0 Ec) as [-> | ->]; simpl; Lra.lra.
Qed.

(** ** C6 *)

(** (C6, counterexample) On a fresh gateway whose model file
    deserialises and whose scaler file does not, [load_model] raises and
    leaves the new model in place, with no scaler and the loaded flag
    false: a partial state. *)
Lemma load_model_keeps_model_on_scaler_failure :
  let '(g, r) := Gateway.load_model Gateway.env_bad_scaler Gateway.init None None in
  r = Gateway.Err Gateway.ErrorLoadingModel /\
  Gateway.model g = Some Gateway.constant_classifier /\
  Gateway.scaler g = None /\ Gateway.is_loaded g = false.
Proof. repeat split. Qed.

(** (C6, amended) [load_model] has no rollback.  With [mp'] and [sp']
    the resolved paths: a successful call leaves the loaded flag set, the
    model equal to what [mp'] unpickled to and the scaler equal to what
    [sp'] unpickled to (both present).  A failing call leaves the loaded
    flag and the scaler as they were; the model is the newly unpickled
    one when both files exist and [mp'] unpickled (so the scaler is what
    failed), and the old model otherwise.  Both paths are recorded
    either way. *)
Theorem load_model_failure_state (env : Gateway.Env) (g : Gateway.PredictionModel)
    (mp sp : option string) (g' : Gateway.PredictionModel) (r : Gateway.result unit) :
  let mp' := Gateway.resolve_path env mp "MODEL_PATH" "parkinson_voice_model.pkl" in
  let sp' := Gateway.resolve_path env sp "SCALER_PATH" "scaler.pkl" in
  Gateway.load_model env g mp sp = (g', r) ->
  Gateway.model_path g' = Some mp' /\ Gateway.scaler_path g' = Some sp' /\
  (r = Gateway.Ok tt ->
     Gateway.is_loaded g' = true /\
     Gateway.model g' = Gateway.pickle_load_model env mp' /\
     Gateway.scaler g' = Gateway.pickle_load_scaler env sp' /\
     Gateway.model g' <> None /\ Gateway.scaler g' <> None) /\
  (forall e, r = Gateway.Err e ->
     Gateway.is_loaded g' = Gateway.is_loaded g /\ Gateway.scaler g' = Gateway.scaler g /\
     Gateway.model g' =
       (if Gateway.path_exists env mp' && Gateway.path_exists env sp' then
          match Gateway.pickle_load_model env mp' with
          | Some m => Some m
          | None => Gateway.model g
          end
        else Gateway.model g) /\
     (Gateway.path_exists env mp' && Gateway.path_exists env sp' = true ->
      Gateway.pickle_load_model env mp' <> None ->
      Gateway.pickle_load_scaler env sp' = None)).
Proof.
  intros mp' sp'. unfold Gateway.load_model. fold mp' sp'.
  destruct (Gateway.path_exists env mp') eqn:Hm; simpl.
  2: { intros [= <- <-]. simpl. refine (conj eq_refl (conj eq_refl (conj _ _))).
       - intros Hc. discriminate Hc.
       - intros e _. refine (conj eq_refl (conj eq_refl (conj eq_refl _))). intros Hc. discriminate Hc. }
  destruct (Gateway.path_exists env sp') eqn:Hs; simpl.
  2: { intros [= <- <-]. simpl. refine (conj eq_refl (conj eq_refl (conj _ _))).
       - intros Hc. discriminate Hc.
       - intros e _. refine (conj eq_refl (conj eq_refl (conj eq_refl _))). intros Hc. discriminate Hc. }
  destruct (Gateway.pickle_load_model env mp') as [m|] eqn:Em.
  2: { intros [= <- <-]. simpl. refine (conj eq_refl (conj eq_refl (conj _ _))).
       - intros Hc. discriminate Hc.
       - intros e _. refine (conj eq_refl (conj eq_refl (conj eq_refl _))).
         intros _ Hc. exfalso. apply Hc. reflexivity. }
  destruct (Gateway.pickle_load_scaler env sp') as [sc|] eqn:Es.
  - intros [= <- <-]. simpl. refine (conj eq_refl (conj eq_refl (conj _ _))).
    + intros _. refine (conj eq_refl (conj eq_refl (conj eq_refl (conj _ _)))); discriminate.
    + intros e Hc. discriminate Hc.
  - intros [= <- <-]. simpl. refine (conj eq_refl (conj eq_refl (conj _ _))).
    + intros Hc. discriminate Hc.
    + intros e _. refine (conj eq_refl (conj eq_refl (conj eq_refl _))). intros _ _. reflexivity.
Qed.

(** ** C7 *)

(** (C7, counterexample) A loaded gateway whose scaler accepts arrays of
    any length returns a prediction for a 38-entry array. *)
Lemma predict_accepts_short_array :
  length (repeat 0%R 38) <> 39%nat /\
  Gateway.predict Gateway.lenient_gateway (repeat 0%R 38) = Gateway.Ok (0%Z, IZR 0).
Proof. split; [discriminate | reflexivity]. Qed.

(** (C7, amended) [predict] makes no shape or key check of its own: on a
    loaded gateway its result depends on the feature array only through
    the scaler's [transform], and a mismatched array is reported as a
    [PredictionModelError] exactly when that [transform] (or the
    classifier) raises on it. *)
Theorem predict_no_shape_check (g : Gateway.PredictionModel) (sc : Gateway.Scaler) (x y : list R) :
  Gateway.is_loaded g = true -> Gateway.scaler g = Some sc ->
  (Gateway.transform sc x = None -> Gateway.predict g x = Gateway.Err Gateway.ErrorMakingPrediction) /\
  (Gateway.transform sc x = Gateway.transform sc y -> Gateway.predict g x = Gateway.predict g y).
Proof.
  intros Hl Hs. unfold Gateway.predict, Gateway.predict_body. rewrite Hl, Hs. simpl.
  split; intros E; rewrite E; reflexivity.
Qed.

(** ** C8 *)

(** (C8, counterexample) An existing 0-byte [.wav] file passes the
    existence and size checks and the extension check; it is rejected by
    the decode step, not with a not-found or size error. *)
Lemma validate_zero_byte_wav_read_error :
  Validation.validate_audio Validation.fs_empty_wav "uploads/recording.wav" = Validation.VErr Validation.ReadError.
Proof. reflexivity. Qed.

(** (C8, amended) [validate_audio] checks existence, then size (over
    10 MB), then extension, then decoding and duration, stopping at the
    first failure; an existing 0-byte file with an allowed extension
    passes the first three checks, so it can only be rejected by the
    decode or the duration check. *)
Theorem validate_audio_check_order (fs : Validation.AudioFS) (p : string) :
  (Validation.af_exists fs p = false ->
     Validation.validate_audio fs p = Validation.VErr (Validation.NotFound p)) /\
  (Validation.af_exists fs p = true ->
     Qlt_bool Validation.MAX_FILE_SIZE_MB (Validation.getsize_mb fs p) = true ->
     Validation.validate_audio fs p = Validation.VErr (Validation.TooLarge (Validation.getsize_mb fs p))) /\
  (Validation.af_exists fs p = true ->
     Qlt_bool Validation.MAX_FILE_SIZE_MB (Validation.getsize_mb fs p) = false ->
     ~ In (Validation.file_ext p) Validation.ALLOWED_FORMATS ->
     Validation.validate_audio fs p = Validation.VErr (Validation.UnsupportedFormat (Validation.file_ext p))) /\
  (Validation.af_exists fs p = true ->
     Qlt_bool Validation.MAX_FILE_SIZE_MB (Validation.getsize_mb fs p) = false ->
     In (Validation.file_ext p) Validation.ALLOWED_FORMATS ->
     Validation.validate_audio fs p =
       Validation.read_and_check_duration fs p (Validation.getsize_mb fs p) (Validation.file_ext p)) /\
  (Validation.af_exists fs p = true -> Validation.af_getsize fs p = 0%Z ->
     In (Validation.file_ext p) Validation.ALLOWED_FORMATS ->
     forall e, Validation.validate_audio fs p = Validation.VErr e -> Validation.is_late_error e).
Proof.
  assert (Hin : forall ext, In ext Validation.ALLOWED_FORMATS <->
                  existsb (String.eqb ext) Validation.ALLOWED_FORMATS = true).
  { intros ext. rewrite existsb_exists. split.
    - intros H. exists ext. split; [exact H | apply String.eqb_refl].
    - intros [y [Hy Heq]]. apply String.eqb_eq in Heq. now subst. }
  unfold Validation.validate_audio.
  refine (conj _ (conj _ (conj _ (conj _ _)))).
  - intros ->. reflexivity.
  - intros -> ->. reflexivity.
  - intros -> -> Hn. rewrite Hin in Hn. apply not_true_is_false in Hn. now rewrite Hn.
  - intros -> -> Hy. rewrite Hin in Hy. now rewrite Hy.
  - intros Hex Hz Hy e.
    assert (Hmb : Qlt_bool Validation.MAX_FILE_SIZE_MB (Validation.getsize_mb fs p) = false)
      by (unfold Validation.getsize_mb; rewrite Hz; reflexivity).
    rewrite Hin in Hy. cbv zeta. rewrite Hex, Hmb, Hy. cbn [negb].
    unfold Validation.read_and_check_duration.
    destruct (Validation.af_load fs p) as [[n sr]|].
    + destruct (sr =? 0)%Z.
      * intros [= <-]. left. reflexivity.
      * destruct (Qlt_bool _ Validation.MIN_DURATION_SEC).
        { intros [= <-]. right. left. eexists. reflexivity. }
        destruct (Qlt_bool Validation.MAX_DURATION_SEC _).
        { intros [= <-]. right. right. eexists. reflexivity. }
        discriminate.
    + intros [= <-]. left. reflexivity.
Qed.

(** ** C9 *)

Lemma getrandbits_nonneg (k : Z) (st : PyRandom.RState) : (0 <= fst (PyRandom.getrandbits k st))%Z.
Proof.
  unfold PyRandom.getrandbits, PyRandom.genrand_uint32.
  destruct (PyRandom.N <=? PyRandom.index st)%nat; simpl;
    apply Z.shiftr_nonneg; unfold PyRandom.temper, PyRandom.u32; apply Z.land_nonneg; right; lia.
Qed.

Lemma randbelow_range (n : Z) st r st' : PyRandom.randbelow n st r st' -> (0 <= r < n)%Z.
Proof.
  induction 1 as [st r st' E Hlt | st r st' r2 st'' E Hge _ IH]; [|exact IH].
  pose proof (getrandbits_nonneg (Z.log2 n + 1) st) as Hn. rewrite E in Hn. simpl in Hn. lia.
Qed.

Lemma randbelow_det (n : Z) st r1 s1 :
  PyRandom.randbelow n st r1 s1 -> forall r2 s2, PyRandom.randbelow n st r2 s2 -> r1 = r2 /\ s1 = s2.
Proof.
  induction 1 as [st r st' E Hlt | st r st' r2 st'' E Hge _ IH]; intros r' s' H2;
    inversion H2 as [st0 r0 s0 E0 Hlt0 | st0 r0 s0 r3 s3 E0 Hge0 H3]; subst;
    rewrite E in E0; injection E0 as <- <-.
  - auto.
  - lia.
  - lia.
  - now apply IH.
Qed.

Lemma randint_range (a b : Z) st r st' : PyRandom.randint a b st r st' -> (a <= r <= b)%Z.
Proof. intros [r0 [H ->]]. apply randbelow_range in H. lia. Qed.

Lemma randint_det (a b : Z) st r1 s1 r2 s2 :
  PyRandom.randint a b st r1 s1 -> PyRandom.randint a b st r2 s2 -> r1 = r2 /\ s1 = s2.
Proof.
  intros [x [Hx ->]] [y [Hy ->]]. destruct (randbelow_det _ _ _ _ Hx _ _ Hy) as [-> ->]. auto.
Qed.

Lemma clamp_int_range (x : Q) :
  (0 <= Scores.py_int (VocalMetrics.py_max 0 (VocalMetrics.py_min 100 x)) <= 100)%Z.
Proof.
  set (q := VocalMetrics.py_max 0 (VocalMetrics.py_min 100 x)).
  assert (Hq : (0 <= q <= 100)%Q).
  { unfold q, VocalMetrics.py_max, VocalMetrics.py_min.
    pose proof (Qlt_bool_iff x 100) as H1.
    destruct (Qlt_bool x 100) eqn:E1.
    - destruct H1 as [H1 _]. specialize (H1 eq_refl).
      pose proof (Qlt_bool_iff 0 x) as H2. destruct (Qlt_bool 0 x) eqn:E2.
      + destruct H2 as [H2 _]. specialize (H2 eq_refl). Lqa.lra.
      + Lqa.lra.
    -       vm_compute; split; discriminate. }
  rewrite (Scores.py_int_nonneg q) by apply Hq.
  split; [apply Scores.Z_le_Qfloor | apply Scores.Qfloor_le_Z]; apply Hq.
Qed.

(** (C9) Two runs of [_calculate_vocal_metrics] on the same features and
    health score, whatever the state of the global generator before
    each, return the same metrics (and leave the generator in the same
    state): the trends come from [random.seed(int(health_score))].  Every
    trend is an integer in [[-2, 2]] and every sub-score value an integer
    in [[0, 100]]. *)
Theorem vocal_metrics_deterministic (features : gmap string Q) (health_score : Z)
    (st1 st2 : PyRandom.RState) (vm1 vm2 : VocalMetrics.VocalMetrics) (st1' st2' : PyRandom.RState) :
  VocalMetrics._calculate_vocal_metrics features health_score st1 vm1 st1' ->
  VocalMetrics._calculate_vocal_metrics features health_score st2 vm2 st2' ->
  vm1 = vm2 /\ st1' = st2' /\
  Forall (fun m => (-2 <= VocalMetrics.trend m <= 2)%Z /\ (0 <= VocalMetrics.value m <= 100)%Z)
    [VocalMetrics.pitchStability vm1; VocalMetrics.voiceClarity vm1;
     VocalMetrics.breathControl vm1; VocalMetrics.consistency vm1].
Proof.
  intros H1 H2.
  destruct H1 as [t1 t2 t3 t4 s1 s2 s3 s4 R1 R2 R3 R4].
  destruct H2 as [u1 u2 u3 u4 v1 v2 v3 v4 Q1 Q2 Q3 Q4].
  destruct (randint_det _ _ _ _ _ _ _ R1 Q1) as [<- <-].
  destruct (randint_det _ _ _ _ _ _ _ R2 Q2) as [<- <-].
  destruct (randint_det _ _ _ _ _ _ _ R3 Q3) as [<- <-].
  destruct (randint_det _ _ _ _ _ _ _ R4 Q4) as [<- <-].
  split; [reflexivity|]. split; [reflexivity|].
  apply randint_range in R1, R2, R3, R4.
  unfold VocalMetrics.assemble, VocalMetrics.sub_scores.
  repeat constructor; simpl; lia || apply clamp_int_range.
Qed.

(* ================================================================== *)
(** * Witnesses: the claims' theorems at concrete inputs *)

Import Samples.

Lemma features_to_array_extract_features_witness :
  Extraction.pitch_values unvoiced_analysis = [] /\
  firstn 5 (skipn 26 (Extraction.features_to_array (Extraction.extract_features unvoiced_analysis)))
    = [0; 0; 0; 0; 0]%Z.
Proof.
  assert (Hp : Extraction.pitch_values unvoiced_analysis = []) by (vm_compute; reflexivity).
  split; [exact Hp|].
  exact (proj2 (proj2 (proj2 (proj2 (features_to_array_extract_features unvoiced_analysis)))) Hp).
Defined.

Lemma predict_probability_fallback_witness :
  Gateway.classifier_contract Gateway.logistic_classifier /\
  Gateway.predict Gateway.logistic_gateway [1; 2]%R = Gateway.Ok (0%Z, Gateway.sigmoid 0) /\
  (0 <= Gateway.sigmoid 0 <= 1)%R.
Proof.
  assert (Hc : Gateway.classifier_contract Gateway.logistic_classifier).
  { split.
    - intros xs c [= <-]. now left.
    - intros pp xs row Hpp. discriminate Hpp. }
  assert (Hp : Gateway.predict Gateway.logistic_gateway [1; 2]%R = Gateway.Ok (0%Z, Gateway.sigmoid 0))
    by reflexivity.
  split; [exact Hc|]. split; [exact Hp|].
  exact (proj2 (predict_probability_fallback Gateway.logistic_gateway Gateway.logistic_classifier
                  [1; 2]%R 0%Z (Gateway.sigmoid 0) eq_refl Hc Hp)).
Defined.


Lemma confidence_truncated_distance_witness :
  Scores64.probability_ok (Float64.lit 95 100) = true /\ Scores64.probability_ok (Float64.lit 5 100) = true /\
  (exists c, Scores64.calculate_confidence (Float64.lit 95 100) = Some c /\ (50 <= c <= 100)%Z) /\
  (89 <= 90)%Z.
Proof.
  assert (H1 : Scores64.probability_ok (Float64.lit 95 100) = true) by (vm_compute; reflexivity).
  assert (H2 : Scores64.probability_ok (Float64.lit 5 100) = true) by (vm_compute; reflexivity).
  assert (Hd : (Qabs (Float64.val (Float64.lit 95 100) - (1 # 2)) <=
                Qabs (Float64.val (Float64.lit 5 100) - (1 # 2)))%Q) by (vm_compute; discriminate).
  assert (E1 : Scores64.calculate_confidence (Float64.lit 95 100) = Some 89%Z) by (vm_compute; reflexivity).
  assert (E2 : Scores64.calculate_confidence (Float64.lit 5 100) = Some 90%Z) by (vm_compute; reflexivity).
  pose proof (confidence_truncated_distance _ _ H1 H2) as (Ex & Mono & _).
  split; [exact H1|]. split; [exact H2|]. split.
  - destruct Ex as (c & Ec & Rc & _). exists c. split; [exact Ec | exact Rc].
  - exact (Mono Hd 89%Z 90%Z E1 E2).
Defined.
Lemma health_score_truncated_witness :
  Scores64.probability_ok (Float64.lit 4 1000) = true /\ Scores64.probability_ok (Float64.lit 88 100) = true /\
  (exists h, Scores64.calculate_health_score (Float64.lit 88 100) = Some h /\ (0 <= h <= 100)%Z) /\
  (12 <= 99)%Z.
Proof.
  assert (H1 : Scores64.probability_ok (Float64.lit 4 1000) = true) by (vm_compute; reflexivity).
  assert (H2 : Scores64.probability_ok (Float64.lit 88 100) = true) by (vm_compute; reflexivity).
  assert (Hd : (Float64.val (Float64.lit 4 1000) <= Float64.val (Float64.lit 88 100))%Q)
    by (vm_compute; discriminate).
  assert (E1 : Scores64.calculate_health_score (Float64.lit 4 1000) = Some 99%Z) by (vm_compute; reflexivity).
  assert (E2 : Scores64.calculate_health_score (Float64.lit 88 100) = Some 12%Z) by (vm_compute; reflexivity).
  pose proof (health_score_truncated _ _ H1 H2) as (_ & _ & _ & Mono).
  pose proof (health_score_truncated _ _ H2 H1) as (Ex & _).
  split; [exact H1|]. split; [exact H2|]. split.
  - destruct Ex as (h & Eh & Rh & _). exists h. split; [exact Eh | exact Rh].
  - exact (Mono Hd 99%Z 12%Z E1 E2).
Defined.

Lemma load_model_failure_state_witness :
  Gateway.load_model Gateway.env_bad_scaler Gateway.init None None =
    (fst (Gateway.load_model Gateway.env_bad_scaler Gateway.init None None),
     Gateway.Err Gateway.ErrorLoadingModel) /\
  Gateway.is_loaded (fst (Gateway.load_model Gateway.env_bad_scaler Gateway.init None None)) = false /\
  Gateway.scaler (fst (Gateway.load_model Gateway.env_bad_scaler Gateway.init None None)) = None /\
  Gateway.model (fst (Gateway.load_model Gateway.env_bad_scaler Gateway.init None None)) =
    Some Gateway.constant_classifier.
Proof.
  assert (E : Gateway.load_model Gateway.env_bad_scaler Gateway.init None None =
    (fst (Gateway.load_model Gateway.env_bad_scaler Gateway.init None None),
     Gateway.Err Gateway.ErrorLoadingModel)) by reflexivity.
  split; [exact E|].
  destruct (load_model_failure_state _ _ _ _ _ _ E) as (_ & _ & _ & F).
  destruct (F Gateway.ErrorLoadingModel eq_refl) as (Hl & Hs & Hm & _).
  split; [exact Hl|]. split; [exact Hs|].
  rewrite Hm. reflexivity.
Defined.

Lemma predict_no_shape_check_witness :
  Gateway.is_loaded Gateway.strict_gateway = true /\
  Gateway.scaler Gateway.strict_gateway = Some Gateway.strict_scaler /\
  Gateway.predict Gateway.strict_gateway (repeat 0%R 38) = Gateway.Err Gateway.ErrorMakingPrediction.
Proof.
  split; [reflexivity|]. split; [reflexivity|].
  apply (proj1 (predict_no_shape_check Gateway.strict_gateway Gateway.strict_scaler
                  (repeat 0%R 38) (repeat 0%R 38) eq_refl eq_refl)).
  reflexivity.
Defined.

Lemma validate_audio_check_order_witness :
  Validation.af_exists Validation.fs_empty_wav "uploads/recording.wav" = true /\
  Validation.af_getsize Validation.fs_empty_wav "uploads/recording.wav" = 0%Z /\
  In (Validation.file_ext "uploads/recording.wav") Validation.ALLOWED_FORMATS /\
  Validation.is_late_error Validation.ReadError.
Proof.
  assert (Hin : In (Validation.file_ext "uploads/recording.wav") Validation.ALLOWED_FORMATS)
    by (vm_compute; left; reflexivity).
  split; [reflexivity|]. split; [reflexivity|]. split; [exact Hin|].
  apply (proj2 (proj2 (proj2 (proj2 (validate_audio_check_order Validation.fs_empty_wav
                                       "uploads/recording.wav"))))
           eq_refl eq_refl Hin).
  reflexivity.
Defined.

Lemma vocal_metrics_deterministic_witness :
  VocalMetrics._calculate_vocal_metrics ∅ 80 (PyRandom.seed 0) vm80 st80 /\
  VocalMetrics._calculate_vocal_metrics ∅ 80 (PyRandom.seed 7) vm80 st80 /\
  map VocalMetrics.trend [VocalMetrics.pitchStability vm80; VocalMetrics.voiceClarity vm80;
                          VocalMetrics.breathControl vm80; VocalMetrics.consistency vm80]
    = [0; 1; 2; 1]%Z /\
  Forall (fun m => (-2 <= VocalMetrics.trend m <= 2)%Z /\ (0 <= VocalMetrics.value m <= 100)%Z)
    [VocalMetrics.pitchStability vm80; VocalMetrics.voiceClarity vm80;
     VocalMetrics.breathControl vm80; VocalMetrics.consistency vm80].
Proof.
  assert (E : VocalMetrics.calculate_vocal_metrics_fuel 20 ∅ 80 = Some (vm80, st80))
    by (vm_compute; reflexivity).
  pose proof (VocalMetrics.calculate_vocal_metrics_fuel_sound 20 ∅ 80 (PyRandom.seed 0) vm80 st80 E) as H1.
  pose proof (VocalMetrics.calculate_vocal_metrics_fuel_sound 20 ∅ 80 (PyRandom.seed 7) vm80 st80 E) as H2.
  split; [exact H1|]. split; [exact H2|]. split; [vm_compute; reflexivity|].
  exact (proj2 (proj2 (vocal_metrics_deterministic ∅ 80 _ _ vm80 vm80 st80 st80 H1 H2))).
Defined.

(* ================================================================== *)
(** * Further properties of the code *)

Lemma threshold_order :
  (Float64.val (Float64.lit 3 10) < 1 # 2)%Q /\ (1 # 2 < Float64.val (Float64.lit 7 10))%Q.
Proof. split; vm_compute; reflexivity. Qed.

Lemma risk_cases64 (p : SpecFloat.spec_float) :
  Scores64.probability_ok p = true ->
  (Scores64.calculate_risk_level p = "low" /\ (Float64.val p < Float64.val (Float64.lit 3 10))%Q) \/
  (Scores64.calculate_risk_level p = "medium" /\ (Float64.val (Float64.lit 3 10) <= Float64.val p)%Q /\
     (Float64.val p < Float64.val (Float64.lit 7 10))%Q) \/
  (Scores64.calculate_risk_level p = "high" /\ (Float64.val (Float64.lit 7 10) <= Float64.val p)%Q).
Proof.
  intros Hp. pose proof (Scores64.probability_ok_spec p Hp) as (Vp & Fp & _).
  exact (Scores64.risk_cases p Vp Fp).
Qed.

Lemma map_to_status_cases (risk_level : string) :
  Scores.map_to_status risk_level = "normal" \/ Scores.map_to_status risk_level = "warning" \/
  Scores.map_to_status risk_level = "alert".
Proof.
  unfold Scores.map_to_status, Scores.status_mapping.
  destruct (decide (risk_level = "high")) as [->|Hh]; [auto|].
  rewrite lookup_insert_ne by congruence.
  destruct (decide (risk_level = "medium")) as [->|Hm]; [auto|].
  rewrite lookup_insert_ne by congruence.
  destruct (decide (risk_level = "low")) as [->|Hl]; [auto|].
  rewrite lookup_insert_ne by congruence. rewrite lookup_empty. simpl. auto.
Qed.

(** (X1) [map_to_status] returns one of normal, warning, alert for every
    string, and normal for every string other than low, medium and high (the
    [.get] default). *)
Theorem map_to_status_total (risk_level : string) :
  (Scores.map_to_status risk_level = "normal" \/ Scores.map_to_status risk_level = "warning" \/
   Scores.map_to_status risk_level = "alert") /\
  (risk_level <> "low" -> risk_level <> "medium" -> risk_level <> "high" ->
   Scores.map_to_status risk_level = "normal").
Proof.
  split; [apply map_to_status_cases|]. intros Hl Hm Hh.
  unfold Scores.map_to_status, Scores.status_mapping.
  rewrite !lookup_insert_ne by congruence. rewrite lookup_empty. reflexivity.
Qed.

Lemma risk_health_bands64 (p : SpecFloat.spec_float) (h : Z) :
  Scores64.probability_ok p = true ->
  Scores64.calculate_health_score p = Some h ->
  (Scores64.calculate_risk_level p = "low" -> (70 <= h <= 100)%Z) /\
  (Scores64.calculate_risk_level p = "medium" -> (30 <= h <= 70)%Z) /\
  (Scores64.calculate_risk_level p = "high" -> (0 <= h <= 30)%Z) /\
  ((80 <= h)%Z -> Scores64.calculate_risk_level p = "low").
Proof.
  intros Hp Eh. rewrite (Scores64.health_formula p Hp) in Eh. injection Eh as <-.
  pose proof (Scores64.probability_ok_spec p Hp) as (_ & _ & Hv).
  pose proof (Scores64.health_value_range _ Hv) as [H0 H1].
  pose proof (Scores.Z_le_Qfloor _ 0 H0) as L0.
  pose proof (Scores.Qfloor_le_Z _ 100 H1) as L1.
  destruct Scores64.threshold_values as (T3 & T7 & _ & _).
  set (v := Float64.val p) in *.
  set (hv := Scores64.health_value v).
  assert (Up3 : (Float64.val (Float64.lit 3 10) <= v)%Q -> (Qfloor hv <= 70)%Z).
  { intros H. rewrite <- T3. apply Qfloor_resp_le. now apply Scores64.health_value_mono. }
  assert (Lo3 : (v <= Float64.val (Float64.lit 3 10))%Q -> (70 <= Qfloor hv)%Z).
  { intros H. rewrite <- T3. apply Qfloor_resp_le. now apply Scores64.health_value_mono. }
  assert (Up7 : (Float64.val (Float64.lit 7 10) <= v)%Q -> (Qfloor hv <= 30)%Z).
  { intros H. rewrite <- T7. apply Qfloor_resp_le. now apply Scores64.health_value_mono. }
  assert (Lo7 : (v <= Float64.val (Float64.lit 7 10))%Q -> (30 <= Qfloor hv)%Z).
  { intros H. rewrite <- T7. apply Qfloor_resp_le. now apply Scores64.health_value_mono. }
  destruct (risk_cases64 p Hp) as [[-> H]|[[-> [Ha Hb]]|[-> H]]];
    refine (conj _ (conj _ (conj _ _))); intros Hs; try discriminate Hs; try reflexivity.
  - split; [apply Lo3, Qlt_le_weak, H | exact L1].
  - split; [apply Lo7, Qlt_le_weak, Hb | apply Up3, Ha].
  - specialize (Up3 Ha). lia.
  - split; [exact L0 | apply Up7, H].
  - specialize (Up7 H). lia.
Qed.

(** (X3) Along [generate_prediction], for a finite probability p in [[0, 1]]:
    a normal status comes with a health score in [[70, 100]], a warning with
    one in [[30, 70]], an alert with one in [[0, 30]]. *)
Theorem status_health_bands (p : SpecFloat.spec_float) (health_score : Z) :
  Scores64.probability_ok p = true ->
  Scores64.calculate_health_score p = Some health_score ->
  let status := Scores.map_to_status (Scores64.calculate_risk_level p) in
  (status = "normal" -> (70 <= health_score <= 100)%Z) /\
  (status = "warning" -> (30 <= health_score <= 70)%Z) /\
  (status = "alert" -> (0 <= health_score <= 30)%Z).
Proof.
  intros Hp Eh status. subst status.
  destruct (risk_health_bands64 p health_score Hp Eh) as (Hl & Hm & Hh & _).
  destruct (risk_cases64 p Hp) as [[E _]|[[E _]|[E _]]]; rewrite E in Hl, Hm, Hh |- *;
    refine (conj _ (conj _ _)); intros Hs; try discriminate Hs; auto.
Qed.

(** (X4) For a finite probability p in [[0, 1]] whose status is warning,
    [calculate_confidence p] is exactly 50: in the medium band the computed
    distance term never exceeds 40. *)
Theorem warning_confidence_is_50 (p : SpecFloat.spec_float) :
  Scores64.probability_ok p = true ->
  Scores.map_to_status (Scores64.calculate_risk_level p) = "warning" ->
  Scores64.calculate_confidence p = Some 50%Z.
Proof.
  intros Hp Hw. destruct (risk_cases64 p Hp) as [[E _]|[[E [H1 H2]]|[E _]]]; rewrite E in Hw;
    try discriminate Hw.
  rewrite (Scores64.confidence_formula p Hp).
  destruct Scores64.threshold_values as (_ & _ & T3 & T7).
  destruct threshold_order as [O3 O7].
  set (v := Float64.val p) in *.
  set (a3 := Float64.val (Float64.lit 3 10)) in *.
  set (a7 := Float64.val (Float64.lit 7 10)) in *.
  assert (Hf : (Qfloor (Scores64.confidence_value (Qabs (v - (1 # 2)))) <= 40)%Z).
  { destruct (Qlt_le_dec (1 # 2) v) as [Hge|Hle].
    - apply Z.le_trans with 39%Z; [|lia].
      rewrite <- T7. apply Qfloor_resp_le, Scores64.confidence_value_mono.
      rewrite (Qabs_pos (v - (1 # 2))) by Lqa.lra.
      rewrite (Qabs_pos (a7 - (1 # 2))) by Lqa.lra. Lqa.lra.
    - rewrite <- T3. apply Qfloor_resp_le, Scores64.confidence_value_mono.
      rewrite (Qabs_neg (v - (1 # 2))) by Lqa.lra.
      rewrite (Qabs_neg (a3 - (1 # 2))) by Lqa.lra. Lqa.lra. }
  f_equal. lia.
Qed.

Lemma Qlt_bool_false (x y : Q) : Qlt_bool x y = false <-> (y <= x)%Q.
Proof.
  unfold Qlt_bool. rewrite <- Qle_bool_iff. destruct (Qle_bool y x); simpl; split; congruence.
Qed.

Lemma allowed_formats_existsb (ext : string) :
  In ext Validation.ALLOWED_FORMATS <-> existsb (String.eqb ext) Validation.ALLOWED_FORMATS = true.
Proof.
  rewrite existsb_exists. split.
  - intros H. exists ext. split; [exact H | apply String.eqb_refl].
  - intros [y [Hy Heq]]. apply String.eqb_eq in Heq. now subst.
Qed.

(** (X5) [validate_audio] returns a report exactly when the file exists, is at
    most 10 MB, has an allowed extension, decodes with a non-zero sample rate
    and lasts between 15 and 60 s, both bounds inclusive; the report is valid
    and records that duration, the rate, the size and the extension. *)
Theorem validate_audio_ok_iff (fs : Validation.AudioFS) (p : string) (r : Validation.Report) :
  Validation.validate_audio fs p = Validation.VOk r <->
  Validation.af_exists fs p = true /\
  (Validation.getsize_mb fs p <= Validation.MAX_FILE_SIZE_MB)%Q /\
  In (Validation.file_ext p) Validation.ALLOWED_FORMATS /\
  exists n sr, Validation.af_load fs p = Some (n, sr) /\ sr <> 0%Z /\
    (Validation.MIN_DURATION_SEC <= inject_Z (Z.of_nat n) / inject_Z sr <= Validation.MAX_DURATION_SEC)%Q /\
    r = Validation.mkReport true (inject_Z (Z.of_nat n) / inject_Z sr) sr
          (Validation.getsize_mb fs p) (Validation.file_ext p).
Proof.
  unfold Validation.validate_audio, Validation.read_and_check_duration. cbv zeta.
  rewrite allowed_formats_existsb, <- !Qlt_bool_false. split.
  - destruct (Validation.af_exists fs p); [|discriminate]. cbn [negb].
    destruct (Qlt_bool _ (Validation.getsize_mb fs p)); [discriminate|].
    destruct (existsb _ _); [|discriminate]. cbn [negb].
    destruct (Validation.af_load fs p) as [[n sr]|]; [|discriminate].
    destruct (Z.eqb_spec sr 0) as [|Hsr]; [discriminate|].
    destruct (Qlt_bool _ Validation.MIN_DURATION_SEC) eqn:E1; [discriminate|].
    destruct (Qlt_bool Validation.MAX_DURATION_SEC _) eqn:E2; [discriminate|].
    intros [= <-]. repeat split; auto. exists n, sr. repeat split; auto.
    + now apply Qlt_bool_false.
    + now apply Qlt_bool_false.
  - intros (-> & -> & -> & n & sr & -> & Hsr & [H1 H2] & ->). cbn [negb].
    apply Z.eqb_neq in Hsr. rewrite Hsr.
    apply Qlt_bool_false in H1, H2. now rewrite H1, H2.
Qed.

Lemma rfind_dot_nodot (cs : list ascii) (i : nat) (found : option nat) :
  ~ In "."%char cs -> Validation.rfind_dot cs i found = found.
Proof.
  revert i found. induction cs as [|c cs IH]; intros i found Hn; [reflexivity|].
  simpl. destruct (Ascii.eqb_spec c "."%char) as [->|Hc].
  - exfalso. apply Hn. now left.
  - apply IH. intros Hin. apply Hn. now right.
Qed.

Lemma rfind_dot_last_dot (pre : list ascii) (i : nat) (found : option nat) :
  Validation.rfind_dot (pre ++ ["."%char]) i found = Some (i + length pre)%nat.
Proof.
  revert i found. induction pre as [|c pre IH]; intros i found.
  - simpl. now rewrite Nat.add_0_r.
  - simpl. rewrite IH. f_equal. lia.
Qed.

(** (X6) A file name with no dot after its first character, or ending in a
    dot, has the extension [''], so an existing file of at most 10 MB with
    such a name is rejected as an unsupported format. *)
Theorem validate_rejects_name_without_suffix (fs : Validation.AudioFS) (p : string) :
  (~ In "."%char (tl (Validation.path_name p)) \/
   exists pre, Validation.path_name p = pre ++ ["."%char]) ->
  Validation.file_ext p = ""%string /\
  (Validation.af_exists fs p = true ->
   (Validation.getsize_mb fs p <= Validation.MAX_FILE_SIZE_MB)%Q ->
   Validation.validate_audio fs p = Validation.VErr (Validation.UnsupportedFormat "")).
Proof.
  intros Hname.
  assert (Hs : Validation.suffix (Validation.path_name p) = []).
  { unfold Validation.suffix. destruct Hname as [Hn | [pre Hpre]].
    - destruct (Validation.path_name p) as [|c rest]; [reflexivity|].
      simpl in Hn. simpl. rewrite rfind_dot_nodot by exact Hn.
      destruct (Ascii.eqb c "."%char); reflexivity.
    - rewrite Hpre, rfind_dot_last_dot, length_app. simpl.
      replace (length pre + 1 - 1)%nat with (length pre) by lia.
      rewrite Nat.ltb_irrefl, andb_false_r. reflexivity. }
  assert (He : Validation.file_ext p = ""%string) by (unfold Validation.file_ext; now rewrite Hs).
  split; [exact He|]. intros Hex Hmb.
  unfold Validation.validate_audio. cbv zeta. rewrite Hex. cbn [negb].
  apply Qlt_bool_false in Hmb. rewrite Hmb, He. reflexivity.
Qed.


(** (X7) After a failing [load_model] on a gateway that was not loaded,
    [predict] raises the not-loaded error for every input. *)
Theorem predict_after_failed_load (env : Gateway.Env) (g : Gateway.PredictionModel)
    (mp sp : option string) (g' : Gateway.PredictionModel) (e : Gateway.PredictionModelError) :
  Gateway.is_loaded g = false -> Gateway.load_model env g mp sp = (g', Gateway.Err e) ->
  forall x, Gateway.predict g' x = Gateway.Err Gateway.ModelNotLoaded.
Proof.
  intros Hl H x.
  assert (Hl' : Gateway.is_loaded g' = false).
  { unfold Gateway.load_model in H.
    destruct (Gateway.path_exists env _); simpl in H; [|injection H as <- _; exact Hl].
    destruct (Gateway.path_exists env _); simpl in H; [|injection H as <- _; exact Hl].
    destruct (Gateway.pickle_load_model env _); [|injection H as <- _; exact Hl].
    destruct (Gateway.pickle_load_scaler env _); [discriminate|injection H as <- _; exact Hl]. }
  unfold Gateway.predict. now rewrite Hl'.
Qed.

(** (X8) After a successful [load_model], [predict] runs on exactly the model
    and scaler unpickled from the resolved paths, whatever the gateway held
    before. *)
Theorem predict_after_successful_load (env : Gateway.Env) (g : Gateway.PredictionModel)
    (mp sp : option string) (g' : Gateway.PredictionModel) :
  Gateway.load_model env g mp sp = (g', Gateway.Ok tt) ->
  exists m sc,
    Gateway.pickle_load_model env (Gateway.resolve_path env mp "MODEL_PATH" "parkinson_voice_model.pkl") = Some m /\
    Gateway.pickle_load_scaler env (Gateway.resolve_path env sp "SCALER_PATH" "scaler.pkl") = Some sc /\
    forall x, Gateway.predict g' x =
      Gateway.try_except (Gateway.predict_body (Some m) (Some sc) x) Gateway.ErrorMakingPrediction.
Proof.
  unfold Gateway.load_model. intros H.
  destruct (Gateway.path_exists env _); simpl in H; [|discriminate].
  destruct (Gateway.path_exists env _); simpl in H; [|discriminate].
  destruct (Gateway.pickle_load_model env _) as [m|]; [|discriminate].
  destruct (Gateway.pickle_load_scaler env _) as [sc|]; [|discriminate].
  injection H as <-. exists m, sc. repeat split; reflexivity.
Qed.

(** (X9) When [load_model] on a loaded gateway unpickles the model and then
    fails on the scaler, it raises, the gateway stays loaded, and [predict]
    then runs the new model on the output of the old scaler. *)
Theorem failed_reload_mixes_new_model_old_scaler (env : Gateway.Env) (g : Gateway.PredictionModel)
    (mp sp : option string) (m : Gateway.Classifier) :
  let mp' := Gateway.resolve_path env mp "MODEL_PATH" "parkinson_voice_model.pkl" in
  let sp' := Gateway.resolve_path env sp "SCALER_PATH" "scaler.pkl" in
  Gateway.is_loaded g = true ->
  Gateway.path_exists env mp' = true -> Gateway.path_exists env sp' = true ->
  Gateway.pickle_load_model env mp' = Some m -> Gateway.pickle_load_scaler env sp' = None ->
  snd (Gateway.load_model env g mp sp) = Gateway.Err Gateway.ErrorLoadingModel /\
  forall x, Gateway.predict (fst (Gateway.load_model env g mp sp)) x =
    Gateway.try_except (Gateway.predict_body (Some m) (Gateway.scaler g) x) Gateway.ErrorMakingPrediction.
Proof.
  intros mp' sp' Hl Hm Hs Hpm Hps. unfold Gateway.load_model. fold mp' sp'.
  rewrite Hm, Hs, Hpm, Hps. simpl. split; [reflexivity|].
  intros x. unfold Gateway.predict. simpl. now rewrite Hl.
Qed.




(** (X10) The trends of [_calculate_vocal_metrics] depend only on the health
    score: two runs with the same health score and any features give the same
    four trends and leave the generator in the same state. *)
Theorem vocal_trends_ignore_features (f1 f2 : gmap string Q) (health_score : Z)
    (st1 st2 : PyRandom.RState) (vm1 vm2 : VocalMetrics.VocalMetrics) (st1' st2' : PyRandom.RState) :
  VocalMetrics._calculate_vocal_metrics f1 health_score st1 vm1 st1' ->
  VocalMetrics._calculate_vocal_metrics f2 health_score st2 vm2 st2' ->
  map VocalMetrics.trend [VocalMetrics.pitchStability vm1; VocalMetrics.voiceClarity vm1;
                          VocalMetrics.breathControl vm1; VocalMetrics.consistency vm1] =
  map VocalMetrics.trend [VocalMetrics.pitchStability vm2; VocalMetrics.voiceClarity vm2;
                          VocalMetrics.breathControl vm2; VocalMetrics.consistency vm2] /\
  st1' = st2'.
Proof.
  intros H1 H2.
  destruct H1 as [t1 t2 t3 t4 s1 s2 s3 s4 R1 R2 R3 R4].
  destruct H2 as [u1 u2 u3 u4 v1 v2 v3 v4 Q1 Q2 Q3 Q4].
  destruct (randint_det _ _ _ _ _ _ _ R1 Q1) as [<- <-].
  destruct (randint_det _ _ _ _ _ _ _ R2 Q2) as [<- <-].
  destruct (randint_det _ _ _ _ _ _ _ R3 Q3) as [<- <-].
  destruct (randint_det _ _ _ _ _ _ _ R4 Q4) as [<- <-].
  unfold VocalMetrics.assemble.
  destruct (VocalMetrics.sub_scores f1) as [[[a1 b1] c1] d1].
  destruct (VocalMetrics.sub_scores f2) as [[[a2 b2] c2] d2].
  split; reflexivity.
Qed.


(** (X12) For every feature dictionary, the 13 values
    [format_features_for_display] shows are the entries 26 to 38 of
    [features_to_array] (the model input) under the same names, missing keys
    shown as 0 in both. *)
Theorem display_matches_model_input {F : Type} `{NpOps F} (features : gmap string F) :
  let d := Extraction.format_features_for_display features in
  [Extraction.pitch_mean (Extraction.pitch d); Extraction.pitch_std (Extraction.pitch d);
   Extraction.pitch_min (Extraction.pitch d); Extraction.pitch_max (Extraction.pitch d);
   Extraction.jitter (Extraction.voice_quality d); Extraction.shimmer (Extraction.voice_quality d);
   Extraction.centroid_mean (Extraction.spectral d); Extraction.centroid_std (Extraction.spectral d);
   Extraction.zcr_mean (Extraction.temporal d); Extraction.zcr_std (Extraction.temporal d);
   Extraction.rms_mean (Extraction.energy d); Extraction.rms_std (Extraction.energy d);
   Extraction.hnr (Extraction.voice_quality d)]
  = skipn 26 (Extraction.features_to_array features).
Proof. reflexivity. Qed.

Lemma pitch_values_filter {F : Type} `{NpOps F} (a : @Extraction.Analysis F) :
  Extraction.pitch_values a = List.filter (fltb fzero) (map Extraction.frame_pitch (Extraction.piptrack a)).
Proof.
  unfold Extraction.pitch_values.
  assert (G : forall l acc,
    fold_left (fun acc frame =>
                 let pitch := Extraction.frame_pitch frame in
                 if fltb fzero pitch then acc ++ [pitch] else acc) l acc =
    acc ++ List.filter (fltb fzero) (map Extraction.frame_pitch l)).
  { induction l as [|fr l IH]; intros acc; simpl.
    - now rewrite app_nil_r.
    - rewrite IH. simpl. destruct (fltb fzero (Extraction.frame_pitch fr)).
      + now rewrite <- app_assoc.
      + reflexivity. }
  apply G.
Qed.

(** (X13) The pitch list of [extract_features] holds only positive pitches, at
    most one per frame, and holds the pitch of every frame whose pitch is
    positive. *)
Theorem pitch_values_voiced_frames {F : Type} `{NpOps F} (a : @Extraction.Analysis F) :
  Forall (fun x => fltb fzero x = true) (Extraction.pitch_values a) /\
  length (Extraction.pitch_values a) <= length (Extraction.piptrack a) /\
  (forall frame, In frame (Extraction.piptrack a) ->
     fltb fzero (Extraction.frame_pitch frame) = true ->
     In (Extraction.frame_pitch frame) (Extraction.pitch_values a)).
Proof.
  rewrite pitch_values_filter. split; [|split].
  - apply List.Forall_forall. intros x Hx. now apply List.filter_In in Hx.
  - rewrite <- (length_map Extraction.frame_pitch (Extraction.piptrack a)). apply filter_length_le.
  - intros frame Hin Hpos. apply List.filter_In. split; [|exact Hpos]. now apply in_map.
Qed.

(** (X14) [_calculate_pattern_data] always returns three positive percentages
    summing to 100; a higher health score never lowers the first (normal)
    share nor raises the last (alert) one. *)
Theorem pattern_data_distribution {D : Type} (r1 r2 : ResultDocument.PredictionResult D) :
  let d1 := ResultDocument._calculate_pattern_data r1 in
  let d2 := ResultDocument._calculate_pattern_data r2 in
  length d1 = 3 /\ fold_right Z.add 0%Z d1 = 100%Z /\ Forall (fun x => (0 < x)%Z) d1 /\
  ((ResultDocument.health_score r1 <= ResultDocument.health_score r2)%Z ->
     (nth 0 d1 0 <= nth 0 d2 0)%Z /\ (nth 2 d2 0 <= nth 2 d1 0)%Z).
Proof.
  unfold ResultDocument._calculate_pattern_data. cbv zeta.
  destruct (Z.leb_spec 80 (ResultDocument.health_score r1));
  destruct (Z.leb_spec 60 (ResultDocument.health_score r1));
  destruct (Z.leb_spec 80 (ResultDocument.health_score r2));
  destruct (Z.leb_spec 60 (ResultDocument.health_score r2));
  (split; [reflexivity|]; split; [reflexivity|]; split; [repeat constructor; lia|]);
  intros; simpl; lia.
Qed.

(** (X15) In [create_result_document], a status coming from [map_to_status]
    always gets one of the three canned labels and a canned description; any
    other status gets the labels 'Analysis Complete' and 'Voice analysis
    completed successfully.'. *)
Theorem result_document_labels {D : Type} (r : ResultDocument.PredictionResult D)
    (user_id recording_id timestamp : string) (duration : Q) (environment now : string) :
  let doc := ResultDocument.create_result_document r user_id recording_id timestamp duration environment now in
  (ResultDocument.status r = Scores.map_to_status (ResultDocument.risk_level r) ->
     In (ResultDocument.label (ResultDocument.overallResult doc))
        ["Healthy Voice Patterns"; "Attention Recommended"; "Consultation Advised"] /\
     ResultDocument.description (ResultDocument.overallResult doc) <> "Voice analysis completed successfully.") /\
  (ResultDocument.status r <> "normal" -> ResultDocument.status r <> "warning" ->
   ResultDocument.status r <> "alert" ->
     ResultDocument.label (ResultDocument.overallResult doc) = "Analysis Complete" /\
     ResultDocument.description (ResultDocument.overallResult doc) = "Voice analysis completed successfully.").
Proof.
  intros doc. subst doc. unfold ResultDocument.create_result_document. simpl.
  split.
  - intros Hs. rewrite Hs.
    destruct (map_to_status_cases (ResultDocument.risk_level r)) as [-> | [-> | ->]];
      vm_compute; split; auto; discriminate.
  - intros Hn Hw Ha. unfold ResultDocument.labels, ResultDocument.descriptions.
    rewrite !lookup_insert_ne by congruence. rewrite !lookup_empty. split; reflexivity.
Qed.

(** (X16) For a result built as [generate_prediction] builds it from p in [[0,
    1]], the document's pattern chart is [[40, 35, 25]] whenever the status is
    alert, never [[40, 35, 25]] when it is normal, and [[80, 15, 5]] only when
    it is normal. *)
Theorem result_chart_matches_status {D : Type} (r : ResultDocument.PredictionResult D)
    (p : SpecFloat.spec_float)
    (user_id recording_id timestamp : string) (duration : Q) (environment now : string) :
  Scores64.probability_ok p = true ->
  ResultDocument.risk_level r = Scores64.calculate_risk_level p ->
  ResultDocument.status r = Scores.map_to_status (ResultDocument.risk_level r) ->
  Scores64.calculate_health_score p = Some (ResultDocument.health_score r) ->
  let doc := ResultDocument.create_result_document r user_id recording_id timestamp duration environment now in
  let data := ResultDocument.pattern_data (ResultDocument.charts doc) in
  (ResultDocument.status r = "alert" -> data = [40; 35; 25]%Z) /\
  (ResultDocument.status r = "normal" -> data <> [40; 35; 25]%Z) /\
  (data = [80; 15; 5]%Z -> ResultDocument.status r = "normal").
Proof.
  intros Hp Hr Hs Hh doc data. subst doc data. simpl.
  unfold ResultDocument._calculate_pattern_data. cbv zeta. rewrite Hs, Hr.
  destruct (risk_health_bands64 _ _ Hp Hh) as (Hl & Hm & Hhi & H80).
  set (h := ResultDocument.health_score r) in *.
  destruct (risk_cases64 p Hp) as [[E _]|[[E _]|[E _]]];
    rewrite E in Hl, Hm, Hhi, H80 |- *.
  - specialize (Hl eq_refl). refine (conj _ (conj _ _)); intros Hc; try discriminate Hc.
    + destruct (Z.leb_spec 80 h); [discriminate|]. destruct (Z.leb_spec 60 h); [discriminate|]. lia.
    + reflexivity.
  - specialize (Hm eq_refl). refine (conj _ (conj _ _)); intros Hc; try discriminate Hc.
    destruct (Z.leb_spec 80 h); [|destruct (60 <=? h)%Z; discriminate].
    specialize (H80 ltac:(lia)). discriminate H80.
  - specialize (Hhi eq_refl). refine (conj _ (conj _ _)); intros Hc; try discriminate Hc.
    + destruct (Z.leb_spec 80 h); [lia|]. destruct (Z.leb_spec 60 h); [lia|]. reflexivity.
    + destruct (Z.leb_spec 80 h); [lia|]. destruct (60 <=? h)%Z; discriminate.
Qed.

Lemma saved_file_found {D : Type} (svc : Submit.Services D) (w : Submit.World D) (loc : string) :
  Validation.af_exists (Submit.world_fs svc (Submit.saved_world w loc)) loc = true.
Proof. simpl. apply bool_decide_true. set_solver. Qed.

Lemma cleanup_saved {D : Type} (w : Submit.World D) (loc : string) (recs : list Submit.RecordingDoc) :
  Submit.cleanup loc (Submit.mkWorld ({[loc]} ∪ Submit.files w) recs (Submit.results w)) =
  Submit.mkWorld (Submit.files w ∖ {[loc]}) recs (Submit.results w).
Proof.
  unfold Submit.cleanup. simpl. rewrite bool_decide_true by set_solver. f_equal. set_solver.
Qed.

(** (X17) Whenever [submit_recording] answers with an HTTP error, the uploaded
    file is removed, no result document was stored, and the recordings
    collection is unchanged or has gained one document whose path is the
    removed file. *)
Theorem submit_error_cleanup {D : Type} (svc : Submit.Services D) (w w' : Submit.World D)
    (audio_filename content_type timestamp : string) (duration : Q) (user : string) (now_ts : Z)
    (recording_id rec_now res_now : string) (code : Z) (prefix : string) (e : Submit.Exc) :
  let loc := Submit.py_path_join Submit.UPLOAD_DIR (Submit.safe_filename user now_ts audio_filename) in
  Submit.submit_recording svc w audio_filename content_type timestamp duration user now_ts
    recording_id rec_now res_now = (w', Submit.HTTPException code prefix e) ->
  Submit.files w' = Submit.files w ∖ {[loc]} /\ (loc ∉ Submit.files w') /\
  Submit.results w' = Submit.results w /\
  (Submit.recordings w' = Submit.recordings w \/
   exists doc, Submit.recordings w' = Submit.recordings w ++ [doc] /\ Submit.path doc = loc).
Proof.
  intros loc. unfold Submit.submit_recording. fold loc. cbv zeta.
  assert (Hfin : forall recs,
    Submit.cleanup loc (Submit.mkWorld ({[loc]} ∪ Submit.files w) recs (Submit.results w)) =
    Submit.mkWorld (Submit.files w ∖ {[loc]}) recs (Submit.results w)) by apply cleanup_saved.
  assert (Hgoal : forall recs,
    (recs = Submit.recordings w \/ exists doc, recs = Submit.recordings w ++ [doc] /\ Submit.path doc = loc) ->
    forall r : Submit.Response,
    (Submit.cleanup loc (Submit.mkWorld ({[loc]} ∪ Submit.files w) recs (Submit.results w)), r) =
      (w', Submit.HTTPException code prefix e) ->
    Submit.files w' = Submit.files w ∖ {[loc]} /\ (loc ∉ Submit.files w') /\
    Submit.results w' = Submit.results w /\
    (Submit.recordings w' = Submit.recordings w \/
     exists doc, Submit.recordings w' = Submit.recordings w ++ [doc] /\ Submit.path doc = loc)).
  { intros recs Hrecs r H. injection H as Hw _. rewrite Hfin in Hw. subst w'. simpl.
    split; [reflexivity|]. split; [set_solver|]. split; [reflexivity|]. exact Hrecs. }
  destruct (Submit.save_ok svc loc); cbn [negb]; [|discriminate].
  unfold Submit.saved_world.
  destruct (Validation.validate_audio _ loc) as [rep|ev].
  2: { intros H. exact (Hgoal _ (or_introl eq_refl) _ H). }
  destruct (Submit.generate_prediction svc loc) as [pr|eg].
  2: { intros H. exact (Hgoal _ (or_introl eq_refl) _ H). }
  destruct (Submit.insert_recording svc _); cbn [negb].
  2: { intros H. exact (Hgoal _ (or_introl eq_refl) _ H). }
  destruct (Submit.insert_result svc _); cbn [negb]; [discriminate|].
  simpl. intros H. eapply Hgoal; [|exact H].
  right. eexists. split; reflexivity.
Qed.

(** (X18) In [submit_recording], validation of the just-saved upload never
    reports it missing; a validation error gives HTTP 400 with that error, a
    [PredictionModelError] from the analysis HTTP 500 with the 'Prediction
    error: ' prefix. *)
Theorem submit_error_codes {D : Type} (svc : Submit.Services D) (w : Submit.World D)
    (audio_filename content_type timestamp : string) (duration : Q) (user : string) (now_ts : Z)
    (recording_id rec_now res_now : string) :
  let loc := Submit.py_path_join Submit.UPLOAD_DIR (Submit.safe_filename user now_ts audio_filename) in
  let validated := Validation.validate_audio (Submit.world_fs svc (Submit.saved_world w loc)) loc in
  let response := snd (Submit.submit_recording svc w audio_filename content_type timestamp duration
                         user now_ts recording_id rec_now res_now) in
  Submit.save_ok svc loc = true ->
  (forall p, validated <> Validation.VErr (Validation.NotFound p)) /\
  (forall e, validated = Validation.VErr e -> response = Submit.HTTPException 400 "" (Submit.ExcAudio e)) /\
  (forall rep e, validated = Validation.VOk rep ->
     Submit.generate_prediction svc loc = Submit.GErr (Submit.ExcPrediction e) ->
     response = Submit.HTTPException 500 "Prediction error: " (Submit.ExcPrediction e)).
Proof.
  intros loc validated response Hsave. subst validated response.
  unfold Submit.submit_recording. fold loc. cbv zeta. rewrite Hsave. cbn [negb].
  split; [|split].
  - intros p. unfold Validation.validate_audio. rewrite saved_file_found. cbn [negb]. cbv zeta.
    destruct (Qlt_bool _ _); [discriminate|].
    destruct (negb _); [discriminate|].
    unfold Validation.read_and_check_duration.
    destruct (Validation.af_load _ loc) as [[n sr]|]; [|discriminate].
    destruct (sr =? 0)%Z; [discriminate|].
    destruct (Qlt_bool _ Validation.MIN_DURATION_SEC); [discriminate|].
    destruct (Qlt_bool Validation.MAX_DURATION_SEC _); discriminate.
  - intros e ->. reflexivity.
  - intros rep e -> ->. reflexivity.
Qed.

(** (X19) If the results insert raises after the recording insert succeeded,
    [submit_recording] answers 500 'Internal server error: ' and leaves the
    stored recording document pointing at the deleted upload. *)
Theorem submit_result_insert_failure_dangling {D : Type} (svc : Submit.Services D) (w : Submit.World D)
    (audio_filename content_type timestamp : string) (duration : Q) (user : string) (now_ts : Z)
    (recording_id rec_now res_now : string) (rep : Validation.Report)
    (pr : ResultDocument.PredictionResult D) :
  let safe := Submit.safe_filename user now_ts audio_filename in
  let loc := Submit.py_path_join Submit.UPLOAD_DIR safe in
  let recording_doc := Submit.mkRecordingDoc recording_id user safe loc audio_filename timestamp duration
                         content_type "processed" rep rec_now in
  let result_doc := ResultDocument.create_result_document pr user recording_id timestamp duration
                      "Quiet Room" res_now in
  Submit.save_ok svc loc = true ->
  Validation.validate_audio (Submit.world_fs svc (Submit.saved_world w loc)) loc = Validation.VOk rep ->
  Submit.generate_prediction svc loc = Submit.GOk pr ->
  Submit.insert_recording svc recording_doc = true ->
  Submit.insert_result svc result_doc = false ->
  let '(w', response) := Submit.submit_recording svc w audio_filename content_type timestamp duration
                           user now_ts recording_id rec_now res_now in
  response = Submit.HTTPException 500 "Internal server error: " Submit.ExcOther /\
  Submit.recordings w' = Submit.recordings w ++ [recording_doc] /\
  Submit.path recording_doc = loc /\ (loc ∉ Submit.files w') /\
  Submit.results w' = Submit.results w.
Proof.
  intros safe loc recording_doc result_doc Hsave Hval Hgen Hrec Hres.
  unfold Submit.submit_recording. fold safe loc. cbv zeta. rewrite Hsave. cbn [negb].
  rewrite Hval, Hgen. fold recording_doc. rewrite Hrec. cbn [negb]. simpl.
  fold result_doc. rewrite Hres. cbn [negb].
  unfold Submit.saved_world. rewrite cleanup_saved. simpl.
  repeat split; set_solver.
Qed.

(** (X20) When [submit_recording] succeeds, the upload stays on disk and the
    response, the stored recording document and the stored result document
    agree on the recording id, status, health score and confidence of the
    [generate_prediction] result. *)
Theorem submit_success_consistent {D : Type} (svc : Submit.Services D) (w w' : Submit.World D)
    (audio_filename content_type timestamp : string) (duration : Q) (user : string) (now_ts : Z)
    (recording_id rec_now res_now : string) (rid status : string) (health_score confidence : Z) :
  let loc := Submit.py_path_join Submit.UPLOAD_DIR (Submit.safe_filename user now_ts audio_filename) in
  Submit.submit_recording svc w audio_filename content_type timestamp duration user now_ts
    recording_id rec_now res_now = (w', Submit.Success rid status health_score confidence) ->
  rid = recording_id /\ loc ∈ Submit.files w' /\
  exists pr rec doc,
    Submit.generate_prediction svc loc = Submit.GOk pr /\
    status = ResultDocument.status pr /\ health_score = ResultDocument.health_score pr /\
    confidence = ResultDocument.confidence pr /\
    Submit.recordings w' = Submit.recordings w ++ [rec] /\
    Submit.rec_id rec = rid /\ Submit.path rec = loc /\
    Submit.results w' = Submit.results w ++ [doc] /\
    ResultDocument.recording_id doc = rid /\ ResultDocument.healthScore doc = health_score /\
    ResultDocument.or_status (ResultDocument.overallResult doc) = status /\
    ResultDocument.doc_confidence doc = confidence.
Proof.
  intros loc. unfold Submit.submit_recording. fold loc. cbv zeta.
  destruct (Submit.save_ok svc loc); cbn [negb]; [|discriminate].
  destruct (Validation.validate_audio _ loc) as [rep|ev]; [|destruct ev; discriminate].
  destruct (Submit.generate_prediction svc loc) as [pr|eg] eqn:Eg; [|destruct eg; discriminate].
  destruct (Submit.insert_recording svc _); cbn [negb]; [|discriminate].
  destruct (Submit.insert_result svc _); cbn [negb]; [|discriminate].
  intros [= <- <- <- <- <-]. simpl.
  split; [reflexivity|]. split; [set_solver|].
  do 3 eexists. repeat split; reflexivity.
Qed.

(* ================================================================== *)
(** * Witnesses of the further properties *)

Import MoreSamples.

Lemma map_to_status_total_witness :
  "LOW"%string <> "low"%string /\ "LOW"%string <> "medium"%string /\ "LOW"%string <> "high"%string /\
  Scores.map_to_status "LOW" = "normal".
Proof.
  assert (H1 : "LOW"%string <> "low"%string) by discriminate.
  assert (H2 : "LOW"%string <> "medium"%string) by discriminate.
  assert (H3 : "LOW"%string <> "high"%string) by discriminate.
  split; [exact H1|]. split; [exact H2|]. split; [exact H3|].
  exact (proj2 (map_to_status_total "LOW") H1 H2 H3).
Defined.

Lemma status_health_bands_witness :
  Scores64.probability_ok (Float64.lit 5 10) = true /\
  Scores64.calculate_health_score (Float64.lit 5 10) = Some 50%Z /\
  Scores.map_to_status (Scores64.calculate_risk_level (Float64.lit 5 10)) = "warning" /\
  (30 <= 50 <= 70)%Z.
Proof.
  assert (Hp : Scores64.probability_ok (Float64.lit 5 10) = true) by (vm_compute; reflexivity).
  assert (Eh : Scores64.calculate_health_score (Float64.lit 5 10) = Some 50%Z) by (vm_compute; reflexivity).
  assert (Hw : Scores.map_to_status (Scores64.calculate_risk_level (Float64.lit 5 10)) = "warning")
    by (vm_compute; reflexivity).
  split; [exact Hp|]. split; [exact Eh|]. split; [exact Hw|].
  exact (proj1 (proj2 (status_health_bands (Float64.lit 5 10) 50 Hp Eh)) Hw).
Defined.

Lemma warning_confidence_is_50_witness :
  Scores64.probability_ok (Float64.lit 69 100) = true /\
  Scores.map_to_status (Scores64.calculate_risk_level (Float64.lit 69 100)) = "warning" /\
  Scores64.calculate_confidence (Float64.lit 69 100) = Some 50%Z.
Proof.
  assert (Hp : Scores64.probability_ok (Float64.lit 69 100) = true) by (vm_compute; reflexivity).
  assert (Hw : Scores.map_to_status (Scores64.calculate_risk_level (Float64.lit 69 100)) = "warning")
    by (vm_compute; reflexivity).
  split; [exact Hp|]. split; [exact Hw|]. exact (warning_confidence_is_50 (Float64.lit 69 100) Hp Hw).
Defined.

Lemma validate_audio_ok_iff_witness :
  Validation.validate_audio fs_15s "uploads/clip.wav" =
    Validation.VOk (Validation.mkReport true (inject_Z (Z.of_nat 1500) / inject_Z 100) 100
                      (Validation.getsize_mb fs_15s "uploads/clip.wav") "wav") /\
  (Validation.MIN_DURATION_SEC <= inject_Z (Z.of_nat 1500) / inject_Z 100 <= Validation.MAX_DURATION_SEC)%Q.
Proof.
  assert (E : Validation.validate_audio fs_15s "uploads/clip.wav" =
    Validation.VOk (Validation.mkReport true (inject_Z (Z.of_nat 1500) / inject_Z 100) 100
                      (Validation.getsize_mb fs_15s "uploads/clip.wav") "wav")) by reflexivity.
  split; [exact E|].
  destruct (proj1 (validate_audio_ok_iff fs_15s "uploads/clip.wav" _) E)
    as (_ & _ & _ & n & sr & Hl & _ & Hd & _).
  injection Hl as <- <-. exact Hd.
Defined.

Lemma validate_rejects_name_without_suffix_witness :
  ~ In "."%char (tl (Validation.path_name "uploads/recording")) /\
  Validation.validate_audio fs_15s "uploads/recording" = Validation.VErr (Validation.UnsupportedFormat "").
Proof.
  assert (Hn : ~ In "."%char (tl (Validation.path_name "uploads/recording"))).
  { vm_compute. intros H. repeat (destruct H as [H|H]; [discriminate H|]). exact H. }
  split; [exact Hn|].
  apply (proj2 (validate_rejects_name_without_suffix fs_15s "uploads/recording" (or_introl Hn))).
  - reflexivity.
  - vm_compute. discriminate.
Defined.

Lemma predict_after_failed_load_witness :
  Gateway.is_loaded Gateway.init = false /\
  Gateway.load_model Gateway.env_bad_scaler Gateway.init None None =
    (fst (Gateway.load_model Gateway.env_bad_scaler Gateway.init None None), Gateway.Err Gateway.ErrorLoadingModel) /\
  Gateway.predict (fst (Gateway.load_model Gateway.env_bad_scaler Gateway.init None None)) [1%R] =
    Gateway.Err Gateway.ModelNotLoaded.
Proof.
  assert (E : Gateway.load_model Gateway.env_bad_scaler Gateway.init None None =
    (fst (Gateway.load_model Gateway.env_bad_scaler Gateway.init None None),
     Gateway.Err Gateway.ErrorLoadingModel)) by reflexivity.
  split; [reflexivity|]. split; [exact E|].
  exact (predict_after_failed_load Gateway.env_bad_scaler Gateway.init None None _ _ eq_refl E [1%R]).
Defined.

Lemma predict_after_successful_load_witness :
  Gateway.load_model env_good Gateway.init None None =
    (fst (Gateway.load_model env_good Gateway.init None None), Gateway.Ok tt) /\
  exists m sc,
    Gateway.pickle_load_model env_good "/srv/app/ml_training/models/parkinson_voice_model.pkl" = Some m /\
    Gateway.pickle_load_scaler env_good "/srv/app/ml_training/models/scaler.pkl" = Some sc /\
    forall x, Gateway.predict (fst (Gateway.load_model env_good Gateway.init None None)) x =
      Gateway.try_except (Gateway.predict_body (Some m) (Some sc) x) Gateway.ErrorMakingPrediction.
Proof.
  assert (E : Gateway.load_model env_good Gateway.init None None =
    (fst (Gateway.load_model env_good Gateway.init None None), Gateway.Ok tt)) by reflexivity.
  split; [exact E|].
  exact (predict_after_successful_load _ _ _ _ _ E).
Defined.

Lemma failed_reload_mixes_new_model_old_scaler_witness :
  Gateway.is_loaded Gateway.strict_gateway = true /\
  Gateway.predict (fst (Gateway.load_model Gateway.env_bad_scaler Gateway.strict_gateway None None))
    (repeat 0%R 38) =
  Gateway.try_except (Gateway.predict_body (Some Gateway.constant_classifier) (Some Gateway.strict_scaler)
                        (repeat 0%R 38)) Gateway.ErrorMakingPrediction.
Proof.
  split; [reflexivity|].
  exact (proj2 (failed_reload_mixes_new_model_old_scaler Gateway.env_bad_scaler Gateway.strict_gateway
                  None None Gateway.constant_classifier eq_refl eq_refl eq_refl eq_refl eq_refl)
           (repeat 0%R 38)).
Defined.

Lemma vocal_trends_ignore_features_witness :
  VocalMetrics._calculate_vocal_metrics ∅ 80 (PyRandom.seed 0) vm80 st80 /\
  VocalMetrics._calculate_vocal_metrics features_std3 80 (PyRandom.seed 0) vm80_std3 st80_std3 /\
  map VocalMetrics.trend [VocalMetrics.pitchStability vm80; VocalMetrics.voiceClarity vm80;
                          VocalMetrics.breathControl vm80; VocalMetrics.consistency vm80] =
  map VocalMetrics.trend [VocalMetrics.pitchStability vm80_std3; VocalMetrics.voiceClarity vm80_std3;
                          VocalMetrics.breathControl vm80_std3; VocalMetrics.consistency vm80_std3].
Proof.
  assert (E1 : VocalMetrics.calculate_vocal_metrics_fuel 20 ∅ 80 = Some (vm80, st80))
    by (vm_compute; reflexivity).
  assert (E2 : VocalMetrics.calculate_vocal_metrics_fuel 20 features_std3 80 = Some (vm80_std3, st80_std3))
    by (vm_compute; reflexivity).
  pose proof (VocalMetrics.calculate_vocal_metrics_fuel_sound 20 ∅ 80 (PyRandom.seed 0) vm80 st80 E1) as H1.
  pose proof (VocalMetrics.calculate_vocal_metrics_fuel_sound 20 features_std3 80 (PyRandom.seed 0)
                vm80_std3 st80_std3 E2) as H2.
  split; [exact H1|]. split; [exact H2|].
  exact (proj1 (vocal_trends_ignore_features ∅ features_std3 80 _ _ vm80 vm80_std3 st80 st80_std3 H1 H2)).
Defined.


Lemma pitch_values_voiced_frames_witness :
  In ([0; 120]%Z, [1; 5]%Z) (Extraction.piptrack voiced_analysis) /\
  In 120%Z (Extraction.pitch_values voiced_analysis).
Proof.
  assert (Hin : In ([0; 120]%Z, [1; 5]%Z) (Extraction.piptrack voiced_analysis)) by (left; reflexivity).
  split; [exact Hin|].
  exact (proj2 (proj2 (pitch_values_voiced_frames voiced_analysis)) _ Hin eq_refl).
Defined.

Lemma pattern_data_distribution_witness :
  (ResultDocument.health_score (result_for (Float64.lit 3 10)) <= ResultDocument.health_score (result_for (Float64.lit 1 10)))%Z /\
  (nth 0 (ResultDocument._calculate_pattern_data (result_for (Float64.lit 3 10))) 0 <=
   nth 0 (ResultDocument._calculate_pattern_data (result_for (Float64.lit 1 10))) 0)%Z.
Proof.
  assert (H : (ResultDocument.health_score (result_for (Float64.lit 3 10)) <=
               ResultDocument.health_score (result_for (Float64.lit 1 10)))%Z) by (vm_compute; discriminate).
  split; [exact H|].
  exact (proj1 (proj2 (proj2 (proj2 (pattern_data_distribution (result_for (Float64.lit 3 10)) (result_for (Float64.lit 1 10))))) H)).
Defined.

Lemma result_document_labels_witness :
  ResultDocument.status (result_for (Float64.lit 5 10)) =
    Scores.map_to_status (ResultDocument.risk_level (result_for (Float64.lit 5 10))) /\
  In (ResultDocument.label (ResultDocument.overallResult
        (ResultDocument.create_result_document (result_for (Float64.lit 5 10)) "u1" "r1" "t" 20 "Quiet Room" "now")))
     ["Healthy Voice Patterns"; "Attention Recommended"; "Consultation Advised"].
Proof.
  assert (H : ResultDocument.status (result_for (Float64.lit 5 10)) =
              Scores.map_to_status (ResultDocument.risk_level (result_for (Float64.lit 5 10)))) by reflexivity.
  split; [exact H|].
  exact (proj1 (proj1 (result_document_labels (result_for (Float64.lit 5 10)) "u1" "r1" "t" 20 "Quiet Room" "now") H)).
Defined.

Lemma result_chart_matches_status_witness :
  ResultDocument.status (result_for (Float64.lit 75 100)) = "alert" /\
  ResultDocument.pattern_data (ResultDocument.charts
    (ResultDocument.create_result_document (result_for (Float64.lit 75 100)) "u1" "r1" "t" 20 "Quiet Room" "now"))
  = [40; 35; 25]%Z.
Proof.
  assert (Hp : Scores64.probability_ok (Float64.lit 75 100) = true) by (vm_compute; reflexivity).
  assert (Hh : Scores64.calculate_health_score (Float64.lit 75 100) =
               Some (ResultDocument.health_score (result_for (Float64.lit 75 100)))) by (vm_compute; reflexivity).
  assert (Ha : ResultDocument.status (result_for (Float64.lit 75 100)) = "alert") by (vm_compute; reflexivity).
  split; [exact Ha|].
  exact (proj1 (result_chart_matches_status (result_for (Float64.lit 75 100)) (Float64.lit 75 100)
                  "u1" "r1" "t" 20 "Quiet Room" "now" Hp eq_refl eq_refl Hh) Ha).
Defined.

Lemma submit_error_cleanup_witness :
  Submit.submit_recording svc_results_down empty_world "clip.wav" "audio/wav" "t" 15 "u1" 42 "r1" "n1" "n2" =
    (fst (Submit.submit_recording svc_results_down empty_world "clip.wav" "audio/wav" "t" 15 "u1" 42 "r1" "n1" "n2"),
     Submit.HTTPException 500 "Internal server error: " Submit.ExcOther) /\
  ("backend/uploads/u1_42_clip.wav" ∉ Submit.files
     (fst (Submit.submit_recording svc_results_down empty_world "clip.wav" "audio/wav" "t" 15 "u1" 42 "r1" "n1" "n2"))).
Proof.
  assert (E : Submit.submit_recording svc_results_down empty_world "clip.wav" "audio/wav" "t" 15 "u1" 42 "r1" "n1" "n2" =
    (fst (Submit.submit_recording svc_results_down empty_world "clip.wav" "audio/wav" "t" 15 "u1" 42 "r1" "n1" "n2"),
     Submit.HTTPException 500 "Internal server error: " Submit.ExcOther)) by (vm_compute; reflexivity).
  split; [exact E|].
  exact (proj1 (proj2 (submit_error_cleanup svc_results_down empty_world _ "clip.wav" "audio/wav" "t" 15 "u1" 42
                         "r1" "n1" "n2" 500 "Internal server error: " Submit.ExcOther E))).
Defined.

Lemma submit_error_codes_witness :
  Submit.save_ok svc_undecodable "backend/uploads/u1_42_clip.wav" = true /\
  snd (Submit.submit_recording svc_undecodable empty_world "clip.wav" "audio/wav" "t" 15 "u1" 42 "r1" "n1" "n2") =
    Submit.HTTPException 400 "" (Submit.ExcAudio Validation.ReadError) /\
  snd (Submit.submit_recording svc_model_not_loaded empty_world "clip.wav" "audio/wav" "t" 15 "u1" 42 "r1" "n1" "n2") =
    Submit.HTTPException 500 "Prediction error: " (Submit.ExcPrediction Gateway.ModelNotLoaded).
Proof.
  split; [reflexivity|]. split.
  - apply (proj1 (proj2 (submit_error_codes svc_undecodable empty_world "clip.wav" "audio/wav" "t" 15 "u1" 42
                           "r1" "n1" "n2" eq_refl))).
    vm_compute. reflexivity.
  - apply (proj2 (proj2 (submit_error_codes svc_model_not_loaded empty_world "clip.wav" "audio/wav" "t" 15 "u1" 42
                           "r1" "n1" "n2" eq_refl)) (Validation.mkReport true (inject_Z (Z.of_nat 1500) / inject_Z 100) 100
                      (Validation.getsize_mb fs_15s "backend/uploads/u1_42_clip.wav") "wav")).
    + vm_compute. reflexivity.
    + reflexivity.
Defined.

Lemma submit_result_insert_failure_dangling_witness :
  let '(w', response) :=
    Submit.submit_recording svc_results_down empty_world "clip.wav" "audio/wav" "t" 15 "u1" 42 "r1" "n1" "n2" in
  response = Submit.HTTPException 500 "Internal server error: " Submit.ExcOther /\
  Submit.recordings w' =
    [Submit.mkRecordingDoc "r1" "u1" "u1_42_clip.wav" "backend/uploads/u1_42_clip.wav" "clip.wav" "t" 15
       "audio/wav" "processed"
       (Validation.mkReport true (inject_Z (Z.of_nat 1500) / inject_Z 100) 100
          (Validation.getsize_mb fs_15s "backend/uploads/u1_42_clip.wav") "wav") "n1"] /\
  Submit.path (Submit.mkRecordingDoc "r1" "u1" "u1_42_clip.wav" "backend/uploads/u1_42_clip.wav" "clip.wav" "t" 15
       "audio/wav" "processed"
       (Validation.mkReport true (inject_Z (Z.of_nat 1500) / inject_Z 100) 100
          (Validation.getsize_mb fs_15s "backend/uploads/u1_42_clip.wav") "wav") "n1")
    = "backend/uploads/u1_42_clip.wav" /\
  ("backend/uploads/u1_42_clip.wav" ∉ Submit.files w') /\ Submit.results w' = [].
Proof.
  exact (submit_result_insert_failure_dangling svc_results_down empty_world "clip.wav" "audio/wav" "t" 15 "u1" 42
           "r1" "n1" "n2"
           (Validation.mkReport true (inject_Z (Z.of_nat 1500) / inject_Z 100) 100
              (Validation.getsize_mb fs_15s "backend/uploads/u1_42_clip.wav") "wav")
           (result_for (Float64.lit 1 10)) eq_refl ltac:(vm_compute; reflexivity) eq_refl eq_refl eq_refl).
Defined.

Lemma submit_success_consistent_witness :
  Submit.submit_recording svc_ok empty_world "clip.wav" "audio/wav" "t" 15 "u1" 42 "r1" "n1" "n2" =
    (fst (Submit.submit_recording svc_ok empty_world "clip.wav" "audio/wav" "t" 15 "u1" 42 "r1" "n1" "n2"),
     Submit.Success "r1" "normal" 90 80) /\
  "backend/uploads/u1_42_clip.wav" ∈
    Submit.files (fst (Submit.submit_recording svc_ok empty_world "clip.wav" "audio/wav" "t" 15 "u1" 42 "r1" "n1" "n2")).
Proof.
  assert (E : Submit.submit_recording svc_ok empty_world "clip.wav" "audio/wav" "t" 15 "u1" 42 "r1" "n1" "n2" =
    (fst (Submit.submit_recording svc_ok empty_world "clip.wav" "audio/wav" "t" 15 "u1" 42 "r1" "n1" "n2"),
     Submit.Success "r1" "normal" 90 80)) by (vm_compute; reflexivity).
  split; [exact E|].
  exact (proj1 (proj2 (submit_success_consistent svc_ok empty_world _ "clip.wav" "audio/wav" "t" 15 "u1" 42
                         "r1" "n1" "n2" "r1" "normal" 90 80 E))).
Defined.
